(** * BasicGraphicsScene: the model-to-view synchronisation engine

    A shallow embedding of [src/BasicGraphicsScene.cpp] (namespace QtNodes).
    The scene mirrors an external graph model into graphics objects, owns
    the draft connection, and keeps per-connection dialogs and text labels.

    Conventions of the embedding:
    - a [std::unique_ptr<T>] member is the owned object itself ([option T]
      when it may be null); every object carries the identity [ObjId] it was
      given at construction, so that replacing an object is observable;
    - a raw [QGraphicsTextItem*] is an [ObjId] into [sceneTextItems], the
      text items the scene currently holds; a [QPointer] is live exactly
      when its [ObjId] is still there;
    - [std::unordered_map], [QMap] and friends are [gmap]s;
    - member functions are computations in the monad [M], which threads
      the scene and records the signals emitted and the calls made on
      external collaborators (painting, geometry, mouse grabbing);
    - the graph model is external and mutable: each entry point receives
      the model as it is at the time of the call.

    Left out: the painters, the undo stack, [createSceneMenu] and
    [clearScene], which only forward to collaborators. *)

From Stdlib Require Import NArith List.
From Stdlib Require Import Floats.PrimFloat.
From stdpp Require Import base option list gmap strings.

Import ListNotations.
Local Open Scope N_scope.
#[local] Set Warnings "-clear-no-such-hyp".

(** ** Identifiers and plain data *)

Definition NodeId := N.
Definition PortIndex := N.
Definition PortCount := N.

(** Identity of a heap object (what a pointer compares by). *)
Definition ObjId := N.

Module PortType.
Inductive t := In | Out.
End PortType.

Record ConnectionId := mkConnectionId {
  outNodeId : NodeId;
  outPortIndex : PortIndex;
  inNodeId : NodeId;
  inPortIndex : PortIndex
}.

#[global] Instance ConnectionId_eq_dec : EqDecision ConnectionId.
Proof. solve_decision. Defined.

Definition ConnectionId_to_tuple (c : ConnectionId) : N * N * N * N :=
  (outNodeId c, outPortIndex c, inNodeId c, inPortIndex c).

Definition ConnectionId_of_tuple (t : N * N * N * N) : ConnectionId :=
  let '(a, b, c, d) := t in mkConnectionId a b c d.

#[global] Instance ConnectionId_countable : Countable ConnectionId.
Proof.
  apply (inj_countable' ConnectionId_to_tuple ConnectionId_of_tuple).
  by intros [].
Defined.

(** [QPointF]: a pair of [qreal], that is IEEE binary64. *)
Record QPointF := mkQPointF { qx : float; qy : float }.

Inductive Orientation := Horizontal | Vertical.

#[global] Instance Orientation_eq_dec : EqDecision Orientation.
Proof. solve_decision. Defined.

(** The two implementations of [AbstractNodeGeometry] the scene installs. *)
Inductive NodeGeometry :=
  | DefaultHorizontalNodeGeometry
  | DefaultVerticalNodeGeometry.

Definition QColor := N.

(** [FcpDRC::cesgrouprecord], as far as this file uses it. *)
Record cesgrouprecord := { getColumnHeaders : list string }.

(** ** The external graph model

    [AbstractGraphModel] is consumed through four queries.  The unordered
    sets it returns are given as lists, in the order the range-for loops
    of this file enumerate them. *)

Record AbstractGraphModel := {
  (** [allNodeIds()] *)
  allNodeIds : list NodeId;
  (** [nodeData<PortCount>(nodeId, NodeRole::OutPortCount)] *)
  nodeData_OutPortCount : NodeId -> PortCount;
  (** [connections(nodeId, portType, index)] *)
  connections : NodeId -> PortType.t -> PortIndex -> list ConnectionId;
  (** [nodeData(nodeId, NodeRole::Position).value<QPointF>()] *)
  nodeData_Position : NodeId -> QPointF;
  (** The scene-space [in] end point that the constructor of
      [ConnectionGraphicsObject] (not part of this file) computes for a
      connection id from the node positions and the node geometry. *)
  connectionInPoint : ConnectionId -> QPointF
}.

(** ** Graphics objects *)

Record NodeGraphicsObject := {
  ngo_obj : ObjId;
  ngo_nodeId : NodeId
}.

Record ConnectionGraphicsObject := {
  cgo_obj : ObjId;
  cgo_connectionId : ConnectionId;
  (** [in()], the current incoming end point *)
  cgo_in : QPointF;
  (** set by [setConnectionColor] *)
  cgo_color : option QColor;
  (** is [doubleClicked] connected to [openDialog(connectionId)]? *)
  cgo_doubleClicked : bool;
  (** the text items captured (as [QPointer]) by the slots connected to
      [positionChanged], oldest first *)
  cgo_positionChanged : list ObjId
}.

Record QGraphicsTextItem := {
  txt_text : string;
  txt_pos : QPointF
}.

Record QDialog := {
  dlg_obj : ObjId;
  (** the entries of the list widget *)
  dlg_items : list string;
  dlg_visible : bool
}.

(** One entry of the result of [getConnections]. *)
Record ConnectionInfo := {
  ci_connectionId : ConnectionId;
  ci_nodeIdOut : NodeId;
  ci_nodeIdIn : NodeId;
  ci_portTypeIn : PortType.t;
  ci_portTypeOut : PortType.t;
  ci_templateName : string
}.

(** ** The scene *)

Record Scene := mkScene {
  (** identity the next constructed object receives *)
  heapNext : ObjId;
  _nodeGeometry : NodeGeometry;
  _nodeGraphicsObjects : gmap NodeId NodeGraphicsObject;
  _connectionGraphicsObjects : gmap ConnectionId ConnectionGraphicsObject;
  _draftConnection : option ConnectionGraphicsObject;
  _nodeDrag : bool;
  _orientation : Orientation;
  _dialogs : gmap ConnectionId (QDialog * string);
  _textItems : gmap ConnectionId ObjId;
  m_record : list cesgrouprecord;
  (** the [QGraphicsTextItem]s added to the scene with [addItem] and not
      deleted since *)
  sceneTextItems : gmap ObjId QGraphicsTextItem
}.

Definition set_heapNext (f : ObjId -> ObjId) (s : Scene) : Scene :=
  mkScene (f (heapNext s)) (_nodeGeometry s) (_nodeGraphicsObjects s)
    (_connectionGraphicsObjects s) (_draftConnection s) (_nodeDrag s)
    (_orientation s) (_dialogs s) (_textItems s) (m_record s) (sceneTextItems s).

Definition set_nodeGeometry (v : NodeGeometry) (s : Scene) : Scene :=
  mkScene (heapNext s) v (_nodeGraphicsObjects s)
    (_connectionGraphicsObjects s) (_draftConnection s) (_nodeDrag s)
    (_orientation s) (_dialogs s) (_textItems s) (m_record s) (sceneTextItems s).

Definition set_nodeGraphicsObjects
    (f : gmap NodeId NodeGraphicsObject -> gmap NodeId NodeGraphicsObject)
    (s : Scene) : Scene :=
  mkScene (heapNext s) (_nodeGeometry s) (f (_nodeGraphicsObjects s))
    (_connectionGraphicsObjects s) (_draftConnection s) (_nodeDrag s)
    (_orientation s) (_dialogs s) (_textItems s) (m_record s) (sceneTextItems s).

Definition set_connectionGraphicsObjects
    (f : gmap ConnectionId ConnectionGraphicsObject ->
         gmap ConnectionId ConnectionGraphicsObject)
    (s : Scene) : Scene :=
  mkScene (heapNext s) (_nodeGeometry s) (_nodeGraphicsObjects s)
    (f (_connectionGraphicsObjects s)) (_draftConnection s) (_nodeDrag s)
    (_orientation s) (_dialogs s) (_textItems s) (m_record s) (sceneTextItems s).

Definition set_draftConnection (v : option ConnectionGraphicsObject)
    (s : Scene) : Scene :=
  mkScene (heapNext s) (_nodeGeometry s) (_nodeGraphicsObjects s)
    (_connectionGraphicsObjects s) v (_nodeDrag s)
    (_orientation s) (_dialogs s) (_textItems s) (m_record s) (sceneTextItems s).

Definition set_nodeDrag (v : bool) (s : Scene) : Scene :=
  mkScene (heapNext s) (_nodeGeometry s) (_nodeGraphicsObjects s)
    (_connectionGraphicsObjects s) (_draftConnection s) v
    (_orientation s) (_dialogs s) (_textItems s) (m_record s) (sceneTextItems s).

Definition set_orientation (v : Orientation) (s : Scene) : Scene :=
  mkScene (heapNext s) (_nodeGeometry s) (_nodeGraphicsObjects s)
    (_connectionGraphicsObjects s) (_draftConnection s) (_nodeDrag s)
    v (_dialogs s) (_textItems s) (m_record s) (sceneTextItems s).

Definition set_dialogs
    (f : gmap ConnectionId (QDialog * string) ->
         gmap ConnectionId (QDialog * string))
    (s : Scene) : Scene :=
  mkScene (heapNext s) (_nodeGeometry s) (_nodeGraphicsObjects s)
    (_connectionGraphicsObjects s) (_draftConnection s) (_nodeDrag s)
    (_orientation s) (f (_dialogs s)) (_textItems s) (m_record s)
    (sceneTextItems s).

Definition set_textItems
    (f : gmap ConnectionId ObjId -> gmap ConnectionId ObjId)
    (s : Scene) : Scene :=
  mkScene (heapNext s) (_nodeGeometry s) (_nodeGraphicsObjects s)
    (_connectionGraphicsObjects s) (_draftConnection s) (_nodeDrag s)
    (_orientation s) (_dialogs s) (f (_textItems s)) (m_record s)
    (sceneTextItems s).

Definition set_record (f : list cesgrouprecord -> list cesgrouprecord)
    (s : Scene) : Scene :=
  mkScene (heapNext s) (_nodeGeometry s) (_nodeGraphicsObjects s)
    (_connectionGraphicsObjects s) (_draftConnection s) (_nodeDrag s)
    (_orientation s) (_dialogs s) (_textItems s) (f (m_record s))
    (sceneTextItems s).

Definition set_sceneTextItems
    (f : gmap ObjId QGraphicsTextItem -> gmap ObjId QGraphicsTextItem)
    (s : Scene) : Scene :=
  mkScene (heapNext s) (_nodeGeometry s) (_nodeGraphicsObjects s)
    (_connectionGraphicsObjects s) (_draftConnection s) (_nodeDrag s)
    (_orientation s) (_dialogs s) (_textItems s) (m_record s)
    (f (sceneTextItems s)).

(** ** Signals and calls on collaborators *)

Inductive Effect :=
  (** [std::make_unique<NodeGraphicsObject>] for [nodeId] *)
  | NewNodeGraphicsObject (o : ObjId) (nodeId : NodeId)
  (** [std::make_unique<ConnectionGraphicsObject>] for [connectionId] *)
  | NewConnectionGraphicsObject (o : ObjId) (connectionId : ConnectionId)
  (** [grabMouse()] on a connection object *)
  | GrabMouse (o : ObjId)
  (** [update()] on a node or connection object *)
  | Update (o : ObjId)
  (** [setPos(p)] on a node object *)
  | NodeSetPos (o : ObjId) (p : QPointF)
  | SetGeometryChanged (o : ObjId)
  (** [_nodeGeometry->recomputeSize(nodeId)] *)
  | RecomputeSize (geometry : NodeGeometry) (nodeId : NodeId)
  | UpdateQWidgetEmbedPos (o : ObjId)
  | MoveConnections (o : ObjId)
  (** [Q_EMIT modified(this)] *)
  | Modified
  (** [Q_EMIT nodeMoved(nodeId, newPosition)] *)
  | NodeMoved (nodeId : NodeId) (newPosition : QPointF).

(** ** The monad of member functions *)

Definition M (A : Type) : Type := Scene -> A * Scene * list Effect.

Definition ret {A} (a : A) : M A := fun s => (a, s, []).

Definition bind {A B} (m : M A) (k : A -> M B) : M B :=
  fun s =>
    let '(a, s1, e1) := m s in
    let '(b, s2, e2) := k a s1 in
    (b, s2, e1 ++ e2).

Declare Scope scene_scope.
Delimit Scope scene_scope with scene.
Notation "x <- m ;; k" := (bind m (fun x => k))
  (at level 100, m at next level, right associativity) : scene_scope.
Notation "m ;; k" := (bind m (fun _ => k))
  (at level 100, right associativity) : scene_scope.
Local Open Scope scene_scope.

Definition get : M Scene := fun s => (s, s, []).
Definition modify (f : Scene -> Scene) : M unit := fun s => (tt, f s, []).
Definition emit (e : Effect) : M unit := fun s => (tt, s, [e]).

(** The state and the effects a computation leaves behind. *)
Definition value {A} (m : M A) (s : Scene) : A := (m s).1.1.
Definition exec {A} (m : M A) (s : Scene) : Scene := (m s).1.2.
Definition effects {A} (m : M A) (s : Scene) : list Effect := (m s).2.

(** A range-for loop. *)
Fixpoint for_each {A} (l : list A) (body : A -> M unit) : M unit :=
  match l with
  | [] => ret tt
  | x :: l' => body x ;; for_each l' body
  end.

(** [for (PortIndex index = 0; index < n; ++index)] *)
Definition portRange (n : PortCount) : list PortIndex :=
  map N.of_nat (seq 0 (N.to_nat n)).

(** Hands out the identity of a newly constructed object. *)
Definition newObj : M ObjId :=
  fun s => (heapNext s, set_heapNext N.succ s, []).

(** ** Constructors of the graphics objects

    [NodeGraphicsObject] and [ConnectionGraphicsObject] are defined in
    other translation units; construction is recorded as an effect, and
    the end point a new connection object starts with is the one the
    model argument supplies. *)

Definition newNodeGraphicsObject (nodeId : NodeId) : M NodeGraphicsObject :=
  o <- newObj ;;
  emit (NewNodeGraphicsObject o nodeId) ;;
  ret {| ngo_obj := o; ngo_nodeId := nodeId |}.

Definition newConnectionGraphicsObject (g : AbstractGraphModel)
    (connectionId : ConnectionId) : M ConnectionGraphicsObject :=
  o <- newObj ;;
  emit (NewConnectionGraphicsObject o connectionId) ;;
  ret {| cgo_obj := o;
         cgo_connectionId := connectionId;
         cgo_in := connectionInPoint g connectionId;
         cgo_color := None;
         cgo_doubleClicked := false;
         cgo_positionChanged := [] |}.

Definition connect_doubleClicked (c : ConnectionGraphicsObject)
    : ConnectionGraphicsObject :=
  {| cgo_obj := cgo_obj c;
     cgo_connectionId := cgo_connectionId c;
     cgo_in := cgo_in c;
     cgo_color := cgo_color c;
     cgo_doubleClicked := true;
     cgo_positionChanged := cgo_positionChanged c |}.

Definition connect_positionChanged (textItemPtr : ObjId)
    (c : ConnectionGraphicsObject) : ConnectionGraphicsObject :=
  {| cgo_obj := cgo_obj c;
     cgo_connectionId := cgo_connectionId c;
     cgo_in := cgo_in c;
     cgo_color := cgo_color c;
     cgo_doubleClicked := cgo_doubleClicked c;
     cgo_positionChanged := cgo_positionChanged c ++ [textItemPtr] |}.

Definition setConnectionColor (color : QColor)
    (c : ConnectionGraphicsObject) : ConnectionGraphicsObject :=
  {| cgo_obj := cgo_obj c;
     cgo_connectionId := cgo_connectionId c;
     cgo_in := cgo_in c;
     cgo_color := Some color;
     cgo_doubleClicked := cgo_doubleClicked c;
     cgo_positionChanged := cgo_positionChanged c |}.

Definition setEndPointIn (p : QPointF)
    (c : ConnectionGraphicsObject) : ConnectionGraphicsObject :=
  {| cgo_obj := cgo_obj c;
     cgo_connectionId := cgo_connectionId c;
     cgo_in := p;
     cgo_color := cgo_color c;
     cgo_doubleClicked := cgo_doubleClicked c;
     cgo_positionChanged := cgo_positionChanged c |}.

Definition setPos (p : QPointF) (t : QGraphicsTextItem) : QGraphicsTextItem :=
  {| txt_text := txt_text t; txt_pos := p |}.

Definition setVisible (v : bool) (d : QDialog) : QDialog :=
  {| dlg_obj := dlg_obj d; dlg_items := dlg_items d; dlg_visible := v |}.

(** Modelled from the spec: [getNodeId] of ConnectionIdUtils.hpp is not in
    src.  A connection id is composed of the outgoing node id, outgoing
    port index, incoming node id and incoming port index; the end point
    at a port type is the node id of that side. *)
Definition getNodeId (portType : PortType.t) (connectionId : ConnectionId)
    : NodeId :=
  match portType with
  | PortType.Out => outNodeId connectionId
  | PortType.In => inNodeId connectionId
  end.

(** ** Member functions of [BasicGraphicsScene] *)

Definition makeDraftConnection (g : AbstractGraphModel)
    (incompleteConnectionId : ConnectionId) : M ConnectionGraphicsObject :=
  c <- newConnectionGraphicsObject g incompleteConnectionId ;;
  modify (set_draftConnection (Some c)) ;;
  emit (GrabMouse (cgo_obj c)) ;;
  ret c.

Definition getRecordTemplates (inputRecordVector : list cesgrouprecord)
    : M unit :=
  for_each inputRecordVector
    (fun headerRecord => modify (set_record (fun l => l ++ [headerRecord]))).

Definition resetDraftConnection : M unit :=
  modify (set_draftConnection None).

Definition nodeGraphicsObject (nodeId : NodeId)
    : M (option NodeGraphicsObject) :=
  s <- get ;;
  ret (_nodeGraphicsObjects s !! nodeId).

Definition connectionGraphicsObject (connectionId : ConnectionId)
    : M (option ConnectionGraphicsObject) :=
  s <- get ;;
  ret (_connectionGraphicsObjects s !! connectionId).

(** A const member function: it only reads [_dialogs]. *)
Definition getConnections (s : Scene) : list ConnectionInfo :=
  map (fun entry : ConnectionId * (QDialog * string) =>
         let connectionId := entry.1 in
         let dialogPair := entry.2 in
         {| ci_connectionId := connectionId;
            ci_nodeIdOut := outNodeId connectionId;
            ci_nodeIdIn := inNodeId connectionId;
            ci_portTypeIn := PortType.In;
            ci_portTypeOut := PortType.Out;
            ci_templateName := dialogPair.2 |})
      (map_to_list (_dialogs s)).

Definition traverseGraphAndPopulateGraphicsObjects (g : AbstractGraphModel)
    : M unit :=
  let allNodeIds := allNodeIds g in
  (* First create all the nodes. *)
  for_each allNodeIds (fun nodeId =>
    n <- newNodeGraphicsObject nodeId ;;
    modify (set_nodeGraphicsObjects <[nodeId := n]>)) ;;
  (* Then for each node check output connections and insert them. *)
  for_each allNodeIds (fun nodeId =>
    let nOutPorts := nodeData_OutPortCount g nodeId in
    for_each (portRange nOutPorts) (fun index =>
      let outConnectionIds := connections g nodeId PortType.Out index in
      for_each outConnectionIds (fun cid =>
        c <- newConnectionGraphicsObject g cid ;;
        modify (set_connectionGraphicsObjects <[cid := c]>)))).

(** [QGraphicsScene::clear()]: removes and deletes every item of the
    scene.  It runs after both registries were emptied, so what is left to
    delete are the text items.  (It also deletes the item of a draft
    connection, without resetting [_draftConnection]; the member is left
    as the code leaves it.) *)
Definition clear : M unit :=
  modify (set_sceneTextItems (fun _ => ∅)).

Definition onModelReset (g : AbstractGraphModel) : M unit :=
  modify (set_connectionGraphicsObjects (fun _ => ∅)) ;;
  modify (set_nodeGraphicsObjects (fun _ => ∅)) ;;
  clear ;;
  traverseGraphAndPopulateGraphicsObjects g.

Definition setOrientation (g : AbstractGraphModel) (orientation : Orientation)
    : M unit :=
  s <- get ;;
  if decide (_orientation s ≠ orientation) then
    modify (set_orientation orientation) ;;
    s <- get ;;
    match _orientation s with
    | Horizontal => modify (set_nodeGeometry DefaultHorizontalNodeGeometry)
    | Vertical => modify (set_nodeGeometry DefaultVerticalNodeGeometry)
    end ;;
    onModelReset g
  else ret tt.

Definition updateAttachedNodes (connectionId : ConnectionId)
    (portType : PortType.t) : M unit :=
  node <- nodeGraphicsObject (getNodeId portType connectionId) ;;
  match node with
  | Some n => emit (Update (ngo_obj n))
  | None => ret tt
  end.

Definition removeDialog (connectionId : ConnectionId) : M unit :=
  s <- get ;;
  match _dialogs s !! connectionId with
  | Some _ =>
      (* it->second.first->close() *)
      modify (set_dialogs (alter (fun p => (setVisible false p.1, p.2))
                                 connectionId)) ;;
      (* _dialogs.erase(it) *)
      modify (set_dialogs (delete connectionId))
  | None => ret tt
  end.

(** The position a label takes for a given incoming end point:
    [setX(x() - 50)], [setY(y() + 1)]. *)
Definition textPosition (inPoint : QPointF) : QPointF :=
  mkQPointF (qx inPoint - 50)%float (qy inPoint + 1)%float.

Definition addTextUnderConnection (connectionId : ConnectionId)
    (templateText : string) : M unit :=
  s <- get ;;
  match _connectionGraphicsObjects s !! connectionId with
  | Some connectionObject =>
      let inPoint := cgo_in connectionObject in
      (* new QGraphicsTextItem(templateText); setPos; addItem *)
      textItem <- newObj ;;
      modify (set_sceneTextItems
                <[textItem := {| txt_text := templateText;
                                 txt_pos := textPosition inPoint |}]>) ;;
      modify (set_textItems <[connectionId := textItem]>) ;;
      (* connect(connectionObject, positionChanged, ...) *)
      modify (set_connectionGraphicsObjects
                (alter (connect_positionChanged textItem) connectionId))
  | None => ret tt
  end.

(** The slot connected by [addTextUnderConnection]: the lambda capturing
    [textItemPtr] (a [QPointer]) and [connectionObject] (the sender). *)
Definition positionChangedSlot (textItemPtr : ObjId)
    (connectionObject : ConnectionGraphicsObject) : M unit :=
  s <- get ;;
  match sceneTextItems s !! textItemPtr with
  | Some _ =>
      let inPoint := cgo_in connectionObject in
      modify (set_sceneTextItems
                (alter (setPos (textPosition inPoint)) textItemPtr))
  | None => ret tt
  end.

(** A connection object emits [positionChanged]: its slots run in the
    order they were connected. *)
Definition positionChanged (connectionObject : ConnectionGraphicsObject)
    : M unit :=
  for_each (cgo_positionChanged connectionObject)
    (fun textItemPtr => positionChangedSlot textItemPtr connectionObject).

(** Modelled from the spec: ConnectionGraphicsObject.cpp is not in src.  A
    connection proxy exposes its current end points and raises a position
    changed notification; here the registered object of [connectionId]
    takes a new incoming end point and then reports the change. *)
Definition connectionMoved (connectionId : ConnectionId) (inPoint : QPointF)
    : M unit :=
  s <- get ;;
  match _connectionGraphicsObjects s !! connectionId with
  | Some c =>
      modify (set_connectionGraphicsObjects
                <[connectionId := setEndPointIn inPoint c]>) ;;
      positionChanged (setEndPointIn inPoint c)
  | None => ret tt
  end.

Definition onConnectionDeleted (connectionId : ConnectionId) : M unit :=
  s <- get ;;
  match _connectionGraphicsObjects s !! connectionId with
  | Some _ => modify (set_connectionGraphicsObjects (delete connectionId))
  | None => ret tt
  end ;;
  s <- get ;;
  match _textItems s !! connectionId with
  | Some textItem =>
      (* removeItem(textItem); delete textItem *)
      modify (set_sceneTextItems (delete textItem)) ;;
      modify (set_textItems (delete connectionId))
  | None => ret tt
  end ;;
  s <- get ;;
  match _draftConnection s with
  | Some d =>
      if decide (cgo_connectionId d = connectionId)
      then modify (set_draftConnection None)
      else ret tt
  | None => ret tt
  end ;;
  updateAttachedNodes connectionId PortType.Out ;;
  updateAttachedNodes connectionId PortType.In ;;
  removeDialog connectionId ;;
  emit Modified.

Definition onConnectionCreated (g : AbstractGraphModel)
    (connectionId : ConnectionId) : M unit :=
  connectionObject <- newConnectionGraphicsObject g connectionId ;;
  modify (set_connectionGraphicsObjects
            <[connectionId := connect_doubleClicked connectionObject]>) ;;
  updateAttachedNodes connectionId PortType.Out ;;
  updateAttachedNodes connectionId PortType.In.

Definition openDialog (connectionId : ConnectionId) : M unit :=
  s <- get ;;
  match _dialogs s !! connectionId with
  | None =>
      dialog <- newObj ;;
      let headers := flat_map getColumnHeaders (m_record s) in
      modify (set_dialogs
                <[connectionId := ({| dlg_obj := dialog;
                                      dlg_items := headers;
                                      dlg_visible := false |}, "")]>)
  | Some _ => ret tt
  end ;;
  (* _dialogs[connectionId].first->show() *)
  modify (set_dialogs (alter (fun p => (setVisible true p.1, p.2))
                             connectionId)) ;;
  emit Modified.

(** The slot of the dialog's OK button.  [currentItem] is what
    [listWidget->currentItem()] yields; [getColorForHeader] is a member
    function defined elsewhere.  The button is a child of the dialog that
    the entry of [connectionId] owns, so the entry exists whenever the slot
    runs; [_dialogs[connectionId]] is therefore an update in place. *)
Definition okButtonClicked (getColorForHeader : string -> QColor)
    (connectionId : ConnectionId) (currentItem : option string) : M unit :=
  match currentItem with
  | Some selectedTemplate =>
      modify (set_dialogs (alter (fun p => (p.1, selectedTemplate))
                                 connectionId)) ;;
      let selectedColor := getColorForHeader selectedTemplate in
      connectionObject <- connectionGraphicsObject connectionId ;;
      match connectionObject with
      | Some c =>
          modify (set_connectionGraphicsObjects
                    (alter (setConnectionColor selectedColor) connectionId)) ;;
          emit (Update (cgo_obj c))
      | None => ret tt
      end ;;
      connectionObject <- connectionGraphicsObject connectionId ;;
      match connectionObject with
      | Some c => emit (Update (cgo_obj c))
      | None => ret tt
      end ;;
      addTextUnderConnection connectionId selectedTemplate
  | None => ret tt
  end ;;
  (* dialog->accept() *)
  modify (set_dialogs (alter (fun p => (setVisible false p.1, p.2))
                             connectionId)).

Definition onNodeDeleted (nodeId : NodeId) : M unit :=
  s <- get ;;
  match _nodeGraphicsObjects s !! nodeId with
  | Some _ =>
      modify (set_nodeGraphicsObjects (delete nodeId)) ;;
      emit Modified
  | None => ret tt
  end.

Definition onNodeCreated (nodeId : NodeId) : M unit :=
  n <- newNodeGraphicsObject nodeId ;;
  modify (set_nodeGraphicsObjects <[nodeId := n]>) ;;
  emit Modified.

Definition onNodePositionUpdated (g : AbstractGraphModel) (nodeId : NodeId)
    : M unit :=
  node <- nodeGraphicsObject nodeId ;;
  match node with
  | Some n =>
      emit (NodeSetPos (ngo_obj n) (nodeData_Position g nodeId)) ;;
      emit (Update (ngo_obj n)) ;;
      modify (set_nodeDrag true)
  | None => ret tt
  end.

Definition onNodeUpdated (nodeId : NodeId) : M unit :=
  node <- nodeGraphicsObject nodeId ;;
  match node with
  | Some n =>
      emit (SetGeometryChanged (ngo_obj n)) ;;
      s <- get ;;
      emit (RecomputeSize (_nodeGeometry s) nodeId) ;;
      emit (UpdateQWidgetEmbedPos (ngo_obj n)) ;;
      emit (Update (ngo_obj n)) ;;
      emit (MoveConnections (ngo_obj n))
  | None => ret tt
  end.

Definition onNodeClicked (g : AbstractGraphModel) (nodeId : NodeId)
    : M unit :=
  s <- get ;;
  (if _nodeDrag s then
     emit (NodeMoved nodeId (nodeData_Position g nodeId)) ;;
     emit Modified
   else ret tt) ;;
  modify (set_nodeDrag false).

(** The state the member initialisers of the constructor set up, before
    the constructor body runs. *)
Definition initialScene : Scene :=
  {| heapNext := 0;
     _nodeGeometry := DefaultHorizontalNodeGeometry;
     _nodeGraphicsObjects := ∅;
     _connectionGraphicsObjects := ∅;
     _draftConnection := None;
     _nodeDrag := false;
     _orientation := Horizontal;
     _dialogs := ∅;
     _textItems := ∅;
     m_record := [];
     sceneTextItems := ∅ |}.

(** The constructor: after wiring the model's signals it traverses the
    graph. *)
Definition BasicGraphicsScene (g : AbstractGraphModel) : Scene :=
  exec (traverseGraphAndPopulateGraphicsObjects g) initialScene.

(** ** What the traversal is expected to enumerate *)

(** The connection ids the second pass meets: nodes in the model's order,
    for each node its outgoing ports from 0 upwards, for each port the
    connections the model reports. *)
Definition outConnections (g : AbstractGraphModel) : list ConnectionId :=
  flat_map (fun nodeId =>
    flat_map (fun index => connections g nodeId PortType.Out index)
             (portRange (nodeData_OutPortCount g nodeId)))
    (allNodeIds g).

(** Graphics objects in the order they are constructed. *)
Inductive Created :=
  | CreatedNode (nodeId : NodeId)
  | CreatedConnection (connectionId : ConnectionId).

Definition creationOf (e : Effect) : option Created :=
  match e with
  | NewNodeGraphicsObject _ nodeId => Some (CreatedNode nodeId)
  | NewConnectionGraphicsObject _ connectionId =>
      Some (CreatedConnection connectionId)
  | _ => None
  end.

Definition creationOrder (es : list Effect) : list Created :=
  omap creationOf es.

(** The model reports, on the outgoing ports of its nodes, only
    connections whose two end points are nodes it enumerates. *)
Definition endpointsEnumerated (g : AbstractGraphModel) : Prop :=
  ∀ c, c ∈ outConnections g →
    outNodeId c ∈ allNodeIds g ∧ inNodeId c ∈ allNodeIds g.

(** The example model of the specification: nodes A, B, C in that order,
    one output port each, and one connection from A port 0 to C port 0. *)
Definition nodeA : NodeId := 1.
Definition nodeB : NodeId := 2.
Definition nodeC : NodeId := 3.
Definition connAC : ConnectionId := mkConnectionId nodeA 0 nodeC 0.

Definition modelABC : AbstractGraphModel :=
  {| allNodeIds := [nodeA; nodeB; nodeC];
     nodeData_OutPortCount := fun _ => 1;
     connections := fun nodeId portType index =>
       match portType with
       | PortType.Out =>
           if decide (nodeId = nodeA ∧ index = 0) then [connAC] else []
       | PortType.In =>
           if decide (nodeId = nodeC ∧ index = 0) then [connAC] else []
       end;
     nodeData_Position := fun _ => mkQPointF 0 0;
     connectionInPoint := fun _ => mkQPointF 100 20 |}.

(** A model that has lost all its nodes and connections. *)
Definition modelEmpty : AbstractGraphModel :=
  {| allNodeIds := [];
     nodeData_OutPortCount := fun _ => 0;
     connections := fun _ _ _ => [];
     nodeData_Position := fun _ => mkQPointF 0 0;
     connectionInPoint := fun _ => mkQPointF 0 0 |}.

(** The two loop bodies of the traversal. *)
Definition createNode (nodeId : NodeId) : M unit :=
  n <- newNodeGraphicsObject nodeId ;;
  modify (set_nodeGraphicsObjects <[nodeId := n]>).

Definition createConnection (g : AbstractGraphModel) (cid : ConnectionId)
    : M unit :=
  c <- newConnectionGraphicsObject g cid ;;
  modify (set_connectionGraphicsObjects <[cid := c]>).

(** The geometry implementation that goes with an orientation. *)
Definition geometryOf (orientation : Orientation) : NodeGeometry :=
  match orientation with
  | Horizontal => DefaultHorizontalNodeGeometry
  | Vertical => DefaultVerticalNodeGeometry
  end.

(** The members the traversal never writes. *)
Definition besidesRegistry (s : Scene) :=
  (_nodeGeometry s, _draftConnection s, _nodeDrag s, _orientation s,
   _dialogs s, _textItems s, m_record s, sceneTextItems s).

(** The scene the constructor builds on the example model. *)
Definition sceneABC : Scene := BasicGraphicsScene modelABC.

(** A session: nodes A and C appear, then the connection A->C; the user
    double-clicks it and picks "Header1" in the dialog. *)
Definition annotatedScene : Scene :=
  exec (onNodeCreated nodeA ;;
        onNodeCreated nodeC ;;
        onConnectionCreated modelABC connAC ;;
        openDialog connAC ;;
        okButtonClicked (fun _ => 0) connAC (Some "Header1"))
       (BasicGraphicsScene modelEmpty).

(** What [onConnectionDeleted] leaves of the draft member. *)
Definition resetDraftIf (connectionId : ConnectionId)
    (draft : option ConnectionGraphicsObject)
    : option ConnectionGraphicsObject :=
  match draft with
  | Some d => if decide (cgo_connectionId d = connectionId) then None else Some d
  | None => None
  end.

(** What [onConnectionDeleted] leaves of the scene's text items, given
    the entry of [_textItems] for the connection. *)
Definition deleteTextItemOf (textItem : option ObjId)
    (items : gmap ObjId QGraphicsTextItem) : gmap ObjId QGraphicsTextItem :=
  match textItem with
  | Some t => delete t items
  | None => items
  end.

(** The draft connections a scene holds. *)
Definition draftConnections (s : Scene) : list ConnectionGraphicsObject :=
  option_list (_draftConnection s).

(** The [nodeMoved] signals among a list of effects. *)
Definition nodeMovedOf (es : list Effect) : list (NodeId * QPointF) :=
  omap (fun e => match e with
                 | NodeMoved nodeId p => Some (nodeId, p)
                 | _ => None
                 end) es.

(** A drag gesture on a node: one or more position updates, then the
    click that ends it. *)
Definition dragGesture (g : AbstractGraphModel) (nodeId : NodeId)
    (furtherMoves : nat) : M unit :=
  for_each (replicate (S furtherMoves) nodeId) (onNodePositionUpdated g) ;;
  onNodeClicked g nodeId.

(** ** Entry points as events

    The constructor connects the signals of the graph model and the
    scene's own [nodeClicked] to the handlers; [onConnectionCreated]
    connects a proxy's [doubleClicked] to [openDialog]; [openDialog]
    connects the OK button of the dialog it builds.  The remaining events
    are the calls a view makes on the scene. *)

Inductive SceneEvent :=
  | connectionCreated (connectionId : ConnectionId)
  | connectionDeleted (connectionId : ConnectionId)
  | nodeCreated (nodeId : NodeId)
  | nodeDeleted (nodeId : NodeId)
  | nodePositionUpdated (nodeId : NodeId)
  | nodeUpdated (nodeId : NodeId)
  | nodeClicked (nodeId : NodeId)
  | modelReset
  (** the registered proxy of [connectionId] is double-clicked *)
  | doubleClicked (connectionId : ConnectionId)
  (** the OK button of the dialog of [connectionId] is clicked *)
  | okClicked (connectionId : ConnectionId) (currentItem : option string)
  | draftStarted (incompleteConnectionId : ConnectionId)
  | draftReset
  | orientationSet (orientation : Orientation)
  | templatesSupplied (inputRecordVector : list cesgrouprecord)
  (** the registered proxy of [connectionId] takes a new incoming end
      point and reports it *)
  | endPointMoved (connectionId : ConnectionId) (inPoint : QPointF).

(** What an event runs.  A double click reaches [openDialog] only through
    a registered proxy whose signal was connected; the OK slot exists only
    while the dialog of its connection does. *)
Definition handle (getColorForHeader : string -> QColor)
    (g : AbstractGraphModel) (ev : SceneEvent) : M unit :=
  match ev with
  | connectionCreated connectionId => onConnectionCreated g connectionId
  | connectionDeleted connectionId => onConnectionDeleted connectionId
  | nodeCreated nodeId => onNodeCreated nodeId
  | nodeDeleted nodeId => onNodeDeleted nodeId
  | nodePositionUpdated nodeId => onNodePositionUpdated g nodeId
  | nodeUpdated nodeId => onNodeUpdated nodeId
  | nodeClicked nodeId => onNodeClicked g nodeId
  | modelReset => onModelReset g
  | doubleClicked connectionId =>
      s <- get ;;
      match _connectionGraphicsObjects s !! connectionId with
      | Some c => if cgo_doubleClicked c then openDialog connectionId
                  else ret tt
      | None => ret tt
      end
  | okClicked connectionId currentItem =>
      s <- get ;;
      match _dialogs s !! connectionId with
      | Some _ => okButtonClicked getColorForHeader connectionId currentItem
      | None => ret tt
      end
  | draftStarted incompleteConnectionId =>
      makeDraftConnection g incompleteConnectionId ;; ret tt
  | draftReset => resetDraftConnection
  | orientationSet orientation => setOrientation g orientation
  | templatesSupplied inputRecordVector => getRecordTemplates inputRecordVector
  | endPointMoved connectionId inPoint => connectionMoved connectionId inPoint
  end.

(** A run of events, each with the graph model as it is when the event
    arrives. *)
Definition runEvents (getColorForHeader : string -> QColor)
    (trace : list (AbstractGraphModel * SceneEvent)) : M unit :=
  for_each trace (fun ge => handle getColorForHeader ge.1 ge.2).

(** Events that do not run the full reset. *)
Definition resetFree (ev : SceneEvent) : bool :=
  match ev with
  | modelReset | orientationSet _ => false
  | _ => true
  end.

(** Every registered graphics object is stored under its own id. *)
Definition storedUnderOwnId (s : Scene) : Prop :=
  (∀ k n, _nodeGraphicsObjects s !! k = Some n → ngo_nodeId n = k) ∧
  (∀ k c, _connectionGraphicsObjects s !! k = Some c →
     cgo_connectionId c = k).


(** A connection proxy as its constructor leaves it: double click not
    connected, no colour set, no label slot. *)
Definition bareProxy (c : ConnectionGraphicsObject) : Prop :=
  cgo_doubleClicked c = false ∧
  cgo_color c = None ∧
  cgo_positionChanged c = [].

(** The node ids a model holds after a node event, as a set. *)
Definition trackNodes (ids : gset NodeId) (ev : SceneEvent) : gset NodeId :=
  match ev with
  | nodeCreated nodeId => {[nodeId]} ∪ ids
  | nodeDeleted nodeId => ids ∖ {[nodeId]}
  | _ => ids
  end.

(** The connection ids a model holds after a connection event. *)
Definition trackConnections (ids : gset ConnectionId) (ev : SceneEvent)
    : gset ConnectionId :=
  match ev with
  | connectionCreated connectionId => {[connectionId]} ∪ ids
  | connectionDeleted connectionId => ids ∖ {[connectionId]}
  | _ => ids
  end.







(** * Properties *)

(** ** The monad and its loops *)

(** Unfolds the plumbing of the monad. *)
Ltac run_M :=
  unfold value, exec, effects, bind, get, modify, emit, ret, newObj in *;
  simpl in *.

Lemma run_bind {A B} (m : M A) (k : A -> M B) s :
  bind m k s =
    (value (k (value m s)) (exec m s),
     exec (k (value m s)) (exec m s),
     effects m s ++ effects (k (value m s)) (exec m s)).
Proof.
  unfold bind, value, exec, effects.
  destruct (m s) as [[a s1] e1]; simpl.
  by destruct (k a s1) as [[b s2] e2].
Qed.

Lemma exec_bind {A B} (m : M A) (k : A -> M B) s :
  exec (bind m k) s = exec (k (value m s)) (exec m s).
Proof. unfold exec at 1. by rewrite run_bind. Qed.

Lemma effects_bind {A B} (m : M A) (k : A -> M B) s :
  effects (bind m k) s = effects m s ++ effects (k (value m s)) (exec m s).
Proof. unfold effects at 1. by rewrite run_bind. Qed.

Lemma value_bind {A B} (m : M A) (k : A -> M B) s :
  value (bind m k) s = value (k (value m s)) (exec m s).
Proof. unfold value at 1. by rewrite run_bind. Qed.

Lemma exec_ret {A} (a : A) s : exec (ret a) s = s.
Proof. reflexivity. Qed.
Lemma effects_ret {A} (a : A) s : effects (ret a) s = [].
Proof. reflexivity. Qed.
Lemma value_ret {A} (a : A) s : value (ret a) s = a.
Proof. reflexivity. Qed.
Lemma exec_get s : exec get s = s.
Proof. reflexivity. Qed.
Lemma effects_get s : effects get s = [].
Proof. reflexivity. Qed.
Lemma value_get s : value get s = s.
Proof. reflexivity. Qed.
Lemma exec_modify f s : exec (modify f) s = f s.
Proof. reflexivity. Qed.
Lemma effects_modify f s : effects (modify f) s = [].
Proof. reflexivity. Qed.
Lemma exec_emit e s : exec (emit e) s = s.
Proof. reflexivity. Qed.
Lemma effects_emit e s : effects (emit e) s = [e].
Proof. reflexivity. Qed.
Lemma exec_newObj s : exec newObj s = set_heapNext N.succ s.
Proof. reflexivity. Qed.
Lemma effects_newObj s : effects newObj s = [].
Proof. reflexivity. Qed.
Lemma value_newObj s : value newObj s = heapNext s.
Proof. reflexivity. Qed.

Create Rewrite HintDb scene.
#[local] Hint Rewrite @exec_bind @effects_bind @value_bind
  @exec_ret @effects_ret @value_ret exec_get effects_get value_get
  exec_modify effects_modify exec_emit effects_emit
  exec_newObj effects_newObj value_newObj : scene.

(** Normalises a straight-line computation. *)
Ltac step_M := autorewrite with scene; simpl.

Lemma run_eta {A} (m : M A) s : m s = (value m s, exec m s, effects m s).
Proof. unfold value, exec, effects. by destruct (m s) as [[a s1] e1]. Qed.

Lemma for_each_app {A} (l1 l2 : list A) (body : A -> M unit) s :
  for_each (l1 ++ l2) body s = (for_each l1 body ;; for_each l2 body) s.
Proof.
  revert s. induction l1 as [|x l1 IH]; intros s; simpl.
  - rewrite run_bind. apply (run_eta (for_each l2 body) s).
  - unfold bind. destruct (body x s) as [[[] s1] e1].
    rewrite IH. unfold bind.
    destruct (for_each l1 body s1) as [[[] s2] e2].
    destruct (for_each l2 body s2) as [[[] s3] e3].
    by rewrite app_assoc.
Qed.

Lemma for_each_flat_map {A B} (f : A -> list B) (l : list A)
    (body : B -> M unit) s :
  for_each l (fun x => for_each (f x) body) s = for_each (flat_map f l) body s.
Proof.
  revert s. induction l as [|x l IH]; intros s; simpl; [done|].
  rewrite for_each_app. unfold bind.
  destruct (for_each (f x) body s) as [[[] s1] e1]. by rewrite IH.
Qed.

Lemma for_each_ext {A} (l : list A) (body1 body2 : A -> M unit) :
  (∀ x s, body1 x s = body2 x s) →
  ∀ s, for_each l body1 s = for_each l body2 s.
Proof.
  intros Hext. induction l as [|x l IH]; intros s; simpl; [done|].
  unfold bind. rewrite Hext. destruct (body2 x s) as [[[] s1] e1].
  by rewrite IH.
Qed.

Lemma creationOrder_app es1 es2 :
  creationOrder (es1 ++ es2) = creationOrder es1 ++ creationOrder es2.
Proof. apply omap_app. Qed.

Lemma creationOrder_for_each {A} (l : list A) (body : A -> M unit)
    (made : A -> Created) :
  (∀ x s, creationOrder (effects (body x) s) = [made x]) →
  ∀ s, creationOrder (effects (for_each l body) s) = map made l.
Proof.
  intros Hbody. induction l as [|x l IH]; intros s; simpl; [done|].
  rewrite effects_bind, creationOrder_app, Hbody, IH. done.
Qed.

(** ** The traversal *)

Lemma traverse_unfold g s :
  traverseGraphAndPopulateGraphicsObjects g s =
    (for_each (allNodeIds g) createNode ;;
     for_each (outConnections g) (createConnection g)) s.
Proof.
  unfold traverseGraphAndPopulateGraphicsObjects, outConnections.
  fold createNode. rewrite !run_bind.
  set (s1 := exec (for_each (allNodeIds g) createNode) s).
  assert (Hpass2 : ∀ s',
    for_each (allNodeIds g) (fun nodeId =>
      for_each (portRange (nodeData_OutPortCount g nodeId)) (fun index =>
        for_each (connections g nodeId PortType.Out index) (fun cid =>
          c <- newConnectionGraphicsObject g cid ;;
          modify (set_connectionGraphicsObjects <[cid := c]>)))) s'
    = for_each (outConnections g) (createConnection g) s').
  { intros s'. unfold outConnections.
    rewrite <- for_each_flat_map.
    apply for_each_ext. intros nodeId s''.
    by rewrite <- for_each_flat_map. }
  unfold value, exec, effects. by rewrite !Hpass2.
Qed.

Lemma createNode_effects nodeId s :
  effects (createNode nodeId) s = [NewNodeGraphicsObject (heapNext s) nodeId].
Proof. reflexivity. Qed.

Lemma createConnection_effects g cid s :
  effects (createConnection g cid) s =
    [NewConnectionGraphicsObject (heapNext s) cid].
Proof. reflexivity. Qed.

Lemma traverse_creationOrder g s :
  creationOrder (effects (traverseGraphAndPopulateGraphicsObjects g) s) =
    map CreatedNode (allNodeIds g) ++
    map CreatedConnection (outConnections g).
Proof.
  unfold effects. rewrite traverse_unfold. fold (effects
    (for_each (allNodeIds g) createNode ;;
     for_each (outConnections g) (createConnection g)) s).
  rewrite effects_bind, creationOrder_app.
  rewrite (creationOrder_for_each _ _ CreatedNode) by done.
  by rewrite (creationOrder_for_each _ _ CreatedConnection) by done.
Qed.

Lemma portRange_lookup (n : PortCount) (i : nat) :
  (i < N.to_nat n)%nat → portRange n !! i = Some (N.of_nat i).
Proof.
  intros Hi. unfold portRange.
  rewrite list_lookup_fmap, lookup_seq_lt by done. done.
Qed.

Lemma createNode_exec nodeId s :
  exec (createNode nodeId) s =
    set_nodeGraphicsObjects
      <[nodeId := {| ngo_obj := heapNext s; ngo_nodeId := nodeId |}]>
      (set_heapNext N.succ s).
Proof. reflexivity. Qed.

Lemma createConnection_exec g cid s :
  exec (createConnection g cid) s =
    set_connectionGraphicsObjects
      <[cid := {| cgo_obj := heapNext s;
                  cgo_connectionId := cid;
                  cgo_in := connectionInPoint g cid;
                  cgo_color := None;
                  cgo_doubleClicked := false;
                  cgo_positionChanged := [] |}]>
      (set_heapNext N.succ s).
Proof. reflexivity. Qed.

(** The first pass: what it leaves in the scene. *)
Lemma firstPass_state (l : list NodeId) s :
  let s' := exec (for_each l createNode) s in
  dom (_nodeGraphicsObjects s') = dom (_nodeGraphicsObjects s) ∪ list_to_set l ∧
  _connectionGraphicsObjects s' = _connectionGraphicsObjects s ∧
  besidesRegistry s' = besidesRegistry s ∧
  heapNext s ≤ heapNext s' ∧
  (∀ k p, _nodeGraphicsObjects s' !! k = Some p →
     _nodeGraphicsObjects s !! k = Some p ∨ heapNext s ≤ ngo_obj p).
Proof.
  revert s. induction l as [|x l IH]; intros s; simpl.
  - unfold exec; simpl. repeat split; [set_solver|lia|auto].
  - rewrite exec_bind.
    destruct (IH (exec (createNode x) s)) as (Hdom & Hconn & Hrest & Hle & Hfresh).
    rewrite createNode_exec in *. simpl in *.
    repeat split.
    + rewrite Hdom, dom_insert_L. set_solver.
    + done.
    + done.
    + lia.
    + intros k p Hk. destruct (Hfresh k p Hk) as [Hold|Hnew]; [|right; lia].
      destruct (decide (x = k)) as [->|Hne].
      * rewrite lookup_insert_eq in Hold. simplify_eq. right. simpl. lia.
      * rewrite lookup_insert_ne in Hold by done. by left.
Qed.

(** The second pass: what it leaves in the scene. *)
Lemma secondPass_state g (l : list ConnectionId) s :
  let s' := exec (for_each l (createConnection g)) s in
  dom (_connectionGraphicsObjects s') =
    dom (_connectionGraphicsObjects s) ∪ list_to_set l ∧
  _nodeGraphicsObjects s' = _nodeGraphicsObjects s ∧
  besidesRegistry s' = besidesRegistry s ∧
  heapNext s ≤ heapNext s' ∧
  (∀ k c, _connectionGraphicsObjects s' !! k = Some c →
     _connectionGraphicsObjects s !! k = Some c ∨ heapNext s ≤ cgo_obj c).
Proof.
  revert s. induction l as [|x l IH]; intros s; simpl.
  - unfold exec; simpl. repeat split; [set_solver|lia|auto].
  - rewrite exec_bind.
    destruct (IH (exec (createConnection g x) s))
      as (Hdom & Hnode & Hrest & Hle & Hfresh).
    rewrite createConnection_exec in *. simpl in *.
    repeat split.
    + rewrite Hdom, dom_insert_L. set_solver.
    + done.
    + done.
    + lia.
    + intros k c Hk. destruct (Hfresh k c Hk) as [Hold|Hnew]; [|right; lia].
      destruct (decide (x = k)) as [->|Hne].
      * rewrite lookup_insert_eq in Hold. simplify_eq. right. simpl. lia.
      * rewrite lookup_insert_ne in Hold by done. by left.
Qed.

Lemma traverse_exec g s :
  exec (traverseGraphAndPopulateGraphicsObjects g) s =
    exec (for_each (outConnections g) (createConnection g))
         (exec (for_each (allNodeIds g) createNode) s).
Proof. unfold exec at 1. rewrite traverse_unfold. apply exec_bind. Qed.

(** The whole traversal, started on a scene [s]. *)
Lemma traverse_state g s :
  let s' := exec (traverseGraphAndPopulateGraphicsObjects g) s in
  dom (_nodeGraphicsObjects s') =
    dom (_nodeGraphicsObjects s) ∪ list_to_set (allNodeIds g) ∧
  dom (_connectionGraphicsObjects s') =
    dom (_connectionGraphicsObjects s) ∪ list_to_set (outConnections g) ∧
  besidesRegistry s' = besidesRegistry s ∧
  (∀ k p, _nodeGraphicsObjects s' !! k = Some p →
     _nodeGraphicsObjects s !! k = Some p ∨ heapNext s ≤ ngo_obj p) ∧
  (∀ k c, _connectionGraphicsObjects s' !! k = Some c →
     _connectionGraphicsObjects s !! k = Some c ∨ heapNext s ≤ cgo_obj c).
Proof.
  simpl. rewrite traverse_exec.
  destruct (firstPass_state (allNodeIds g) s) as (Hd1 & Hc1 & Hr1 & Hle1 & Hf1).
  destruct (secondPass_state g (outConnections g)
              (exec (for_each (allNodeIds g) createNode) s))
    as (Hd2 & Hn2 & Hr2 & Hle2 & Hf2).
  simpl in *. repeat split.
  - by rewrite Hn2.
  - by rewrite Hd2, Hc1.
  - by rewrite Hr2.
  - intros k p. rewrite Hn2. apply Hf1.
  - intros k c Hk. destruct (Hf2 k c Hk) as [Hold|Hnew].
    + left. by rewrite <- Hc1.
    + right. lia.
Qed.

(** C5: the traversal constructs one node object per enumerated node id, in
    the model's order, and only then the connection objects, nodes in the
    same order and ports ascending; when the model reports only connections
    between enumerated nodes, each connection object is constructed after
    the node objects of both its end points; for the model A, B, C with one
    connection from A to C the order is A, B, C, A->C. *)
Theorem C5_traversal_two_passes :
  (∀ g s,
     creationOrder (effects (traverseGraphAndPopulateGraphicsObjects g) s) =
       map CreatedNode (allNodeIds g) ++
       map CreatedConnection (outConnections g)) ∧
  (∀ g s,
     let s' := exec (traverseGraphAndPopulateGraphicsObjects g) s in
     dom (_nodeGraphicsObjects s') =
       dom (_nodeGraphicsObjects s) ∪ list_to_set (allNodeIds g) ∧
     dom (_connectionGraphicsObjects s') =
       dom (_connectionGraphicsObjects s) ∪ list_to_set (outConnections g)) ∧
  (∀ n i, (i < N.to_nat n)%nat → portRange n !! i = Some (N.of_nat i)) ∧
  (∀ g s before c after,
     endpointsEnumerated g →
     creationOrder (effects (traverseGraphAndPopulateGraphicsObjects g) s) =
       before ++ CreatedConnection c :: after →
     CreatedNode (outNodeId c) ∈ before ∧ CreatedNode (inNodeId c) ∈ before) ∧
  (∀ s,
     creationOrder
       (effects (traverseGraphAndPopulateGraphicsObjects modelABC) s) =
       [CreatedNode nodeA; CreatedNode nodeB; CreatedNode nodeC;
        CreatedConnection connAC]).
Proof.
  split; [exact traverse_creationOrder|].
  split; [intros g s; by destruct (traverse_state g s) as (? & ? & _)|].
  split; [exact portRange_lookup|].
  split; [|intros s; by rewrite traverse_creationOrder].
  intros g s before c after Hwf Heq.
  rewrite traverse_creationOrder in Heq.
  assert (Hc : c ∈ outConnections g).
  { assert (Hin : CreatedConnection c ∈
      map CreatedNode (allNodeIds g) ++
      map CreatedConnection (outConnections g)).
    { rewrite Heq. apply elem_of_app. right. by left. }
    apply elem_of_app in Hin as [Hin|Hin].
    - apply list_elem_of_fmap in Hin as (? & ? & _). discriminate.
    - apply list_elem_of_fmap in Hin as (c' & Hc' & ?). by simplify_eq. }
  (* every node creation lies in [before] *)
  assert (Hnodes : ∀ n, n ∈ allNodeIds g → CreatedNode n ∈ before).
  { clear Hc Hwf. revert before Heq.
    induction (allNodeIds g) as [|x l IH]; intros before Heq n Hn.
    - by apply elem_of_nil in Hn.
    - destruct before as [|b before'].
      + simpl in Heq. discriminate.
      + simpl in Heq. injection Heq as <- Heq.
        apply elem_of_cons in Hn as [->|Hn]; [left|right; by eapply IH]. }
  destruct (Hwf c Hc). split; by apply Hnodes.
Qed.

(** The example model satisfies the hypothesis of C5, and there the A->C
    connection object comes after the node objects of A and C. *)
Lemma C5_traversal_two_passes_witness :
  portRange 3 !! 2%nat = Some 2 ∧
  endpointsEnumerated modelABC ∧
  CreatedNode nodeA ∈ [CreatedNode nodeA; CreatedNode nodeB; CreatedNode nodeC] ∧
  CreatedNode nodeC ∈ [CreatedNode nodeA; CreatedNode nodeB; CreatedNode nodeC].
Proof.
  assert (Hwf : endpointsEnumerated modelABC).
  { intros c Hc. vm_compute in Hc.
    apply list_elem_of_singleton in Hc as ->. split; vm_compute; set_solver. }
  destruct C5_traversal_two_passes as (_ & _ & Hports & H & _).
  split; [apply (Hports 3 2%nat); vm_compute; lia|].
  split; [exact Hwf|].
  apply (H modelABC initialScene
           [CreatedNode nodeA; CreatedNode nodeB; CreatedNode nodeC]
           connAC [] Hwf).
  reflexivity.
Defined.

Lemma onModelReset_run g s :
  onModelReset g s =
    traverseGraphAndPopulateGraphicsObjects g
      (set_sceneTextItems (fun _ => ∅)
         (set_nodeGraphicsObjects (fun _ => ∅)
            (set_connectionGraphicsObjects (fun _ => ∅) s))).
Proof.
  unfold onModelReset, clear, bind, modify.
  by destruct (traverseGraphAndPopulateGraphicsObjects g _) as [[[] s1] e1].
Qed.

(** The full reset: both registries hold exactly what the model
    enumerates, every object in them was constructed by the reset, and
    dialogs and the label map are left as they were. *)
Lemma onModelReset_state g s :
  let s' := exec (onModelReset g) s in
  dom (_nodeGraphicsObjects s') = list_to_set (allNodeIds g) ∧
  dom (_connectionGraphicsObjects s') = list_to_set (outConnections g) ∧
  (∀ k p, _nodeGraphicsObjects s' !! k = Some p → heapNext s ≤ ngo_obj p) ∧
  (∀ k c, _connectionGraphicsObjects s' !! k = Some c →
     heapNext s ≤ cgo_obj c) ∧
  _orientation s' = _orientation s ∧
  _nodeGeometry s' = _nodeGeometry s ∧
  _dialogs s' = _dialogs s ∧
  _textItems s' = _textItems s ∧
  sceneTextItems s' = ∅.
Proof.
  simpl. unfold exec at 1 2 3 4 5 6 7 8 9. rewrite onModelReset_run.
  set (s0 := set_sceneTextItems _ _).
  destruct (traverse_state g s0) as (Hd1 & Hd2 & Hr & Hf1 & Hf2).
  unfold exec in *. simpl in *.
  unfold besidesRegistry in Hr. simpl in Hr. simplify_eq.
  repeat split; try done.
  - rewrite Hd1. set_solver.
  - rewrite Hd2. set_solver.
  - intros k p Hk. by destruct (Hf1 k p Hk) as [Hold|Hnew].
  - intros k c Hk. by destruct (Hf2 k c Hk) as [Hold|Hnew].
Qed.

(** C4: with the orientation already in force, [setOrientation] changes
    nothing and emits nothing; with the other orientation it installs the
    matching geometry and runs the full reset, after which both
    registries hold exactly the ids the model enumerates and every object
    in them was constructed by the reset. *)
Theorem C4_setOrientation :
  (∀ g s, setOrientation g (_orientation s) s = (tt, s, [])) ∧
  (∀ g v s,
     v ≠ _orientation s →
     setOrientation g v s =
       onModelReset g (set_nodeGeometry (geometryOf v) (set_orientation v s)) ∧
     let s' := exec (setOrientation g v) s in
     _orientation s' = v ∧
     _nodeGeometry s' = geometryOf v ∧
     dom (_nodeGraphicsObjects s') = list_to_set (allNodeIds g) ∧
     dom (_connectionGraphicsObjects s') = list_to_set (outConnections g) ∧
     (∀ k p, _nodeGraphicsObjects s' !! k = Some p → heapNext s ≤ ngo_obj p) ∧
     (∀ k c, _connectionGraphicsObjects s' !! k = Some c →
        heapNext s ≤ cgo_obj c)).
Proof.
  split.
  - intros g s. unfold setOrientation. run_M.
    by destruct (decide (_orientation s ≠ _orientation s)).
  - intros g v s Hne.
    assert (Hrun : setOrientation g v s =
      onModelReset g (set_nodeGeometry (geometryOf v) (set_orientation v s))).
    { unfold setOrientation. run_M.
      destruct (decide (_orientation s ≠ v)) as [_|Heq]; [|by destruct Heq].
      destruct v; simpl;
        by destruct (onModelReset g _) as [[[] s1] e1]. }
    split; [exact Hrun|].
    simpl. unfold exec at 1 2 3 4 5 6. rewrite Hrun.
    destruct (onModelReset_state g
      (set_nodeGeometry (geometryOf v) (set_orientation v s)))
      as (Hd1 & Hd2 & Hf1 & Hf2 & Ho & Hg & _).
    unfold exec in *. simpl in *. by repeat split.
Qed.

(** Both hypotheses of C4 are met by the scene built on the example model:
    it is horizontal, so asking for the horizontal orientation is the first
    case and asking for the vertical one is the second. *)
Lemma C4_setOrientation_witness :
  Vertical ≠ _orientation (BasicGraphicsScene modelABC) ∧
  dom (_nodeGraphicsObjects
         (exec (setOrientation modelABC Vertical) (BasicGraphicsScene modelABC)))
    = list_to_set (allNodeIds modelABC).
Proof.
  assert (Hne : Vertical ≠ _orientation (BasicGraphicsScene modelABC))
    by (vm_compute; discriminate).
  split; [exact Hne|].
  destruct C4_setOrientation as [_ H].
  destruct (H modelABC Vertical (BasicGraphicsScene modelABC) Hne)
    as (_ & _ & _ & Hdom & _).
  exact Hdom.
Defined.

(** ** Helpers of the handlers *)

Lemma updateAttachedNodes_exec connectionId portType s :
  exec (updateAttachedNodes connectionId portType) s = s.
Proof.
  unfold updateAttachedNodes, nodeGraphicsObject. step_M.
  by destruct (_nodeGraphicsObjects s !! _).
Qed.

Lemma updateAttachedNodes_effects connectionId portType s :
  effects (updateAttachedNodes connectionId portType) s =
    match _nodeGraphicsObjects s !! getNodeId portType connectionId with
    | Some n => [Update (ngo_obj n)]
    | None => []
    end.
Proof.
  unfold updateAttachedNodes, nodeGraphicsObject. step_M.
  by destruct (_nodeGraphicsObjects s !! _).
Qed.

Lemma removeDialog_exec connectionId s :
  exec (removeDialog connectionId) s = set_dialogs (delete connectionId) s.
Proof.
  unfold removeDialog. step_M.
  destruct (_dialogs s !! connectionId) eqn:Hd; step_M.
  - destruct s; unfold set_dialogs; simpl. f_equal.
    apply map_eq. intros k. destruct (decide (k = connectionId)) as [->|Hne].
    + by rewrite !lookup_delete_eq.
    + by rewrite !lookup_delete_ne, lookup_alter_ne.
  - destruct s; unfold set_dialogs; simpl in *. f_equal.
    symmetry. by apply delete_id.
Qed.

Lemma removeDialog_effects connectionId s :
  effects (removeDialog connectionId) s = [].
Proof.
  unfold removeDialog. step_M.
  by destruct (_dialogs s !! connectionId); step_M.
Qed.

Lemma onConnectionCreated_exec g id s :
  exec (onConnectionCreated g id) s =
    set_connectionGraphicsObjects
      <[id := {| cgo_obj := heapNext s;
                 cgo_connectionId := id;
                 cgo_in := connectionInPoint g id;
                 cgo_color := None;
                 cgo_doubleClicked := true;
                 cgo_positionChanged := [] |}]>
      (set_heapNext N.succ s).
Proof.
  unfold onConnectionCreated, newConnectionGraphicsObject. step_M.
  by rewrite !updateAttachedNodes_exec.
Qed.

Lemma onConnectionCreated_effects g id s :
  effects (onConnectionCreated g id) s =
    NewConnectionGraphicsObject (heapNext s) id ::
    match _nodeGraphicsObjects s !! outNodeId id with
    | Some n => [Update (ngo_obj n)]
    | None => []
    end ++
    match _nodeGraphicsObjects s !! inNodeId id with
    | Some n => [Update (ngo_obj n)]
    | None => []
    end.
Proof.
  unfold onConnectionCreated, newConnectionGraphicsObject. step_M.
  by rewrite !updateAttachedNodes_exec, !updateAttachedNodes_effects.
Qed.

(** ** Creation notifications *)

(** C1, as stated, fails on the scene built from the example model: a
    second [onNodeCreated] for node A, and a second [onConnectionCreated]
    for the connection A->C, each store a different object under the id. *)
Lemma C1_duplicate_creation_counterexample :
  _nodeGraphicsObjects sceneABC !! nodeA =
    Some {| ngo_obj := 0; ngo_nodeId := nodeA |} ∧
  _nodeGraphicsObjects (exec (onNodeCreated nodeA) sceneABC) !! nodeA =
    Some {| ngo_obj := 4; ngo_nodeId := nodeA |} ∧
  _nodeGraphicsObjects (exec (onNodeCreated nodeA) sceneABC) !! nodeA ≠
    _nodeGraphicsObjects sceneABC !! nodeA ∧
  cgo_obj <$> _connectionGraphicsObjects sceneABC !! connAC = Some 3 ∧
  cgo_obj <$> _connectionGraphicsObjects
                (exec (onConnectionCreated modelABC connAC) sceneABC) !! connAC
    = Some 4 ∧
  _connectionGraphicsObjects
    (exec (onConnectionCreated modelABC connAC) sceneABC) !! connAC ≠
    _connectionGraphicsObjects sceneABC !! connAC.
Proof.
  vm_compute. repeat split; try reflexivity; intros H; discriminate H.
Qed.

(** C1 (amended): a creation notification for an id that already has a
    proxy constructs a new object and stores it under the id in place of
    the old one; the key set of the registry is unchanged.
    [onNodeCreated] then emits [modified]; the new connection object has
    its double click wired and no label slots. *)
Theorem C1_duplicate_creation_replaces :
  (∀ id s p,
     _nodeGraphicsObjects s !! id = Some p →
     ngo_obj p < heapNext s →
     let s' := exec (onNodeCreated id) s in
     _nodeGraphicsObjects s' !! id =
       Some {| ngo_obj := heapNext s; ngo_nodeId := id |} ∧
     _nodeGraphicsObjects s' !! id ≠ Some p ∧
     dom (_nodeGraphicsObjects s') = dom (_nodeGraphicsObjects s) ∧
     effects (onNodeCreated id) s =
       [NewNodeGraphicsObject (heapNext s) id; Modified]) ∧
  (∀ g id s c,
     _connectionGraphicsObjects s !! id = Some c →
     cgo_obj c < heapNext s →
     let s' := exec (onConnectionCreated g id) s in
     _connectionGraphicsObjects s' !! id =
       Some {| cgo_obj := heapNext s;
               cgo_connectionId := id;
               cgo_in := connectionInPoint g id;
               cgo_color := None;
               cgo_doubleClicked := true;
               cgo_positionChanged := [] |} ∧
     _connectionGraphicsObjects s' !! id ≠ Some c ∧
     dom (_connectionGraphicsObjects s') = dom (_connectionGraphicsObjects s) ∧
     NewConnectionGraphicsObject (heapNext s) id
       ∈ effects (onConnectionCreated g id) s).
Proof.
  split.
  - intros id s p Hp Hlt. unfold onNodeCreated, newNodeGraphicsObject. run_M.
    rewrite lookup_insert_eq. repeat split.
    + intros Heq. simplify_eq. simpl in Hlt. lia.
    + rewrite dom_insert_L. apply elem_of_dom_2 in Hp. set_solver.
  - intros g id s c Hc Hlt. simpl.
    rewrite onConnectionCreated_exec, onConnectionCreated_effects. simpl.
    rewrite lookup_insert_eq. repeat split.
    + intros Heq. simplify_eq. simpl in Hlt. lia.
    + rewrite dom_insert_L. apply elem_of_dom_2 in Hc. set_solver.
    + by left.
Qed.

(** On the scene of the example model node A and the connection A->C have
    proxies constructed earlier; a second creation replaces each. *)
Lemma C1_duplicate_creation_replaces_witness :
  _nodeGraphicsObjects (exec (onNodeCreated nodeA) sceneABC) !! nodeA =
    Some {| ngo_obj := heapNext sceneABC; ngo_nodeId := nodeA |} ∧
  NewConnectionGraphicsObject (heapNext sceneABC) connAC
    ∈ effects (onConnectionCreated modelABC connAC) sceneABC.
Proof.
  destruct C1_duplicate_creation_replaces as [Hnode Hconn].
  split.
  - refine (proj1 (Hnode nodeA sceneABC {| ngo_obj := 0; ngo_nodeId := nodeA |}
                     _ _)); [reflexivity | vm_compute; reflexivity].
  - refine (proj2 (proj2 (proj2 (Hconn modelABC connAC sceneABC
       {| cgo_obj := 3; cgo_connectionId := connAC;
          cgo_in := connectionInPoint modelABC connAC; cgo_color := None;
          cgo_doubleClicked := false; cgo_positionChanged := [] |} _ _))));
      [reflexivity | vm_compute; reflexivity].
Defined.

(** ** The [modified] notification *)

(** C3: evaluated on the code, [onConnectionCreated] never emits
    [modified], for any id and scene, whereas [onNodeCreated],
    [onNodeDeleted] (when it removes a proxy) and [onConnectionDeleted]
    do. *)
Theorem C3_onConnectionCreated_emits_no_modified :
  (∀ g id s, Modified ∉ effects (onConnectionCreated g id) s) ∧
  (∀ id s, Modified ∈ effects (onNodeCreated id) s) ∧
  (∀ id s, effects (onNodeDeleted id) s =
     match _nodeGraphicsObjects s !! id with
     | Some _ => [Modified]
     | None => []
     end) ∧
  (∀ id s, Modified ∈ effects (onConnectionDeleted id) s) ∧
  effects (onConnectionCreated modelABC connAC)
          (exec (onNodeCreated nodeC) (exec (onNodeCreated nodeA) initialScene))
    = [NewConnectionGraphicsObject 2 connAC; Update 0; Update 1].
Proof.
  repeat split.
  - intros g id s. rewrite onConnectionCreated_effects.
    destruct (_nodeGraphicsObjects s !! outNodeId id);
      destruct (_nodeGraphicsObjects s !! inNodeId id); simpl;
      rewrite ?elem_of_cons, elem_of_nil; naive_solver.
  - intros id s. unfold onNodeCreated, newNodeGraphicsObject. run_M.
    right. by left.
  - intros id s. unfold onNodeDeleted. run_M.
    by destruct (_nodeGraphicsObjects s !! id).
  - intros id s. unfold onConnectionDeleted.
    rewrite !effects_bind, effects_emit, !elem_of_app. do 9 right. by left.
Qed.

(** ** Deletion notifications *)

Lemma onConnectionDeleted_exec id s :
  exec (onConnectionDeleted id) s =
    {| heapNext := heapNext s;
       _nodeGeometry := _nodeGeometry s;
       _nodeGraphicsObjects := _nodeGraphicsObjects s;
       _connectionGraphicsObjects := delete id (_connectionGraphicsObjects s);
       _draftConnection := resetDraftIf id (_draftConnection s);
       _nodeDrag := _nodeDrag s;
       _orientation := _orientation s;
       _dialogs := delete id (_dialogs s);
       _textItems := delete id (_textItems s);
       m_record := m_record s;
       sceneTextItems := deleteTextItemOf (_textItems s !! id) (sceneTextItems s)
    |}.
Proof.
  unfold onConnectionDeleted. step_M.
  rewrite removeDialog_exec, !updateAttachedNodes_exec.
  destruct s as [hn ge no co dr nd ori di ti re st]; simpl.
  destruct (co !! id) eqn:Hco; step_M;
    (destruct (ti !! id) eqn:Hti; step_M);
    (destruct dr as [d|]; [destruct (decide (cgo_connectionId d = id))|]);
    step_M; unfold set_dialogs; simpl; rewrite ?decide_True by done;
    rewrite ?decide_False by done;
    f_equal; by rewrite ?delete_id by done.
Qed.

Lemma onNodeDeleted_exec nodeId s :
  exec (onNodeDeleted nodeId) s = set_nodeGraphicsObjects (delete nodeId) s.
Proof.
  unfold onNodeDeleted. step_M.
  destruct s as [hn ge no co dr nd ori di ti re st]; simpl.
  destruct (no !! nodeId) eqn:Hno; step_M; [done|].
  unfold set_nodeGraphicsObjects; simpl. by rewrite delete_id.
Qed.

Lemma resetDraftIf_idemp id draft :
  resetDraftIf id (resetDraftIf id draft) = resetDraftIf id draft.
Proof.
  destruct draft as [d|]; simpl; [|done].
  destruct (decide (cgo_connectionId d = id)) as [Heq|Hne]; simpl; [done|].
  by rewrite decide_False.
Qed.

(** C6: a second [onNodeDeleted], or a second [onConnectionDeleted], for
    the same id leaves the scene exactly as the first left it. *)
Theorem C6_deletion_idempotent :
  (∀ id s,
     exec (onNodeDeleted id) (exec (onNodeDeleted id) s) =
       exec (onNodeDeleted id) s) ∧
  (∀ id s,
     exec (onConnectionDeleted id) (exec (onConnectionDeleted id) s) =
       exec (onConnectionDeleted id) s).
Proof.
  split; intros id s.
  - rewrite !onNodeDeleted_exec. unfold set_nodeGraphicsObjects; simpl.
    by rewrite delete_delete_eq.
  - rewrite !onConnectionDeleted_exec; simpl.
    by rewrite !delete_delete_eq, resetDraftIf_idemp, lookup_delete_eq.
Qed.

(** ** Dialogs and labels against the registry *)

(** C2: evaluated on the code.  [onConnectionDeleted] removes proxy,
    dialog and label of its id together; [onModelReset] leaves [_dialogs]
    and [_textItems] untouched whatever the model holds, so after the
    annotated session and a reset on the emptied model the connection has
    no proxy but still has its dialog entry and its label entry (whose
    text item the reset deleted). *)
Theorem C2_onModelReset_keeps_dialog_and_label :
  (∀ id s,
     let s' := exec (onConnectionDeleted id) s in
     _connectionGraphicsObjects s' !! id = None ∧
     _dialogs s' !! id = None ∧
     _textItems s' !! id = None) ∧
  (∀ g s,
     _dialogs (exec (onModelReset g) s) = _dialogs s ∧
     _textItems (exec (onModelReset g) s) = _textItems s) ∧
  (let s := annotatedScene in
   is_Some (_connectionGraphicsObjects s !! connAC) ∧
   snd <$> _dialogs s !! connAC = Some "Header1" ∧
   _textItems s !! connAC = Some 4 ∧
   txt_text <$> sceneTextItems s !! 4 = Some "Header1") ∧
  (let s := exec (onModelReset modelEmpty) annotatedScene in
   _connectionGraphicsObjects s !! connAC = None ∧
   snd <$> _dialogs s !! connAC = Some "Header1" ∧
   _textItems s !! connAC = Some 4 ∧
   sceneTextItems s !! 4 = None).
Proof.
  split; [|split; [|split]].
  - intros id s. simpl. rewrite onConnectionDeleted_exec. simpl.
    by rewrite !lookup_delete_eq.
  - intros g s.
    destruct (onModelReset_state g s) as (_ & _ & _ & _ & _ & _ & Hd & Ht & _).
    by split.
  - vm_compute. repeat split. by eexists.
  - vm_compute. by repeat split.
Qed.

(** ** The draft connection *)

(** C7: a scene never holds more than one draft; two
    [makeDraftConnection] calls in a row leave exactly one, the object the
    second call constructed for its id; [resetDraftConnection] always
    leaves none and changes nothing when there was none. *)
Theorem C7_single_draft_last_wins :
  (∀ s, (length (draftConnections s) ≤ 1)%nat) ∧
  (∀ g x y s,
     let s1 := exec (makeDraftConnection g x) s in
     let d := value (makeDraftConnection g y) s1 in
     let s2 := exec (makeDraftConnection g y) s1 in
     draftConnections s2 = [d] ∧
     cgo_connectionId d = y ∧
     cgo_obj d = heapNext s1 ∧
     cgo_obj <$> _draftConnection s1 = Some (heapNext s) ∧
     heapNext s1 ≠ heapNext s ∧
     effects (makeDraftConnection g y) s1 =
       [NewConnectionGraphicsObject (heapNext s1) y; GrabMouse (heapNext s1)]) ∧
  (∀ s, draftConnections (exec resetDraftConnection s) = []) ∧
  (∀ s, effects resetDraftConnection s = []) ∧
  (∀ s, _draftConnection s = None → exec resetDraftConnection s = s).
Proof.
  split; [|split; [|split; [|split]]].
  - intros s. unfold draftConnections.
    destruct (_draftConnection s); simpl; lia.
  - intros g x y s. unfold makeDraftConnection, newConnectionGraphicsObject.
    step_M. repeat split. lia.
  - done.
  - done.
  - intros s Hnone. destruct s; simpl in *. by subst.
Qed.

(** The initial scene has no draft, and resetting it changes nothing. *)
Lemma C7_single_draft_last_wins_witness :
  _draftConnection initialScene = None ∧
  exec resetDraftConnection initialScene = initialScene.
Proof.
  split; [reflexivity|].
  destruct C7_single_draft_last_wins as (_ & _ & _ & _ & H).
  apply H. reflexivity.
Defined.

(** ** The [nodeMoved] notification *)

Lemma onNodePositionUpdated_exec g nodeId s :
  exec (onNodePositionUpdated g nodeId) s =
    match _nodeGraphicsObjects s !! nodeId with
    | Some _ => set_nodeDrag true s
    | None => s
    end.
Proof.
  unfold onNodePositionUpdated, nodeGraphicsObject. step_M.
  by destruct (_nodeGraphicsObjects s !! nodeId).
Qed.

Lemma onNodePositionUpdated_effects g nodeId s :
  effects (onNodePositionUpdated g nodeId) s =
    match _nodeGraphicsObjects s !! nodeId with
    | Some n => [NodeSetPos (ngo_obj n) (nodeData_Position g nodeId);
                 Update (ngo_obj n)]
    | None => []
    end.
Proof.
  unfold onNodePositionUpdated, nodeGraphicsObject. step_M.
  by destruct (_nodeGraphicsObjects s !! nodeId).
Qed.

Lemma onNodeClicked_exec g nodeId s :
  exec (onNodeClicked g nodeId) s = set_nodeDrag false s.
Proof.
  unfold onNodeClicked. step_M. by destruct (_nodeDrag s).
Qed.

Lemma onNodeClicked_effects g nodeId s :
  effects (onNodeClicked g nodeId) s =
    if _nodeDrag s
    then [NodeMoved nodeId (nodeData_Position g nodeId); Modified]
    else [].
Proof.
  unfold onNodeClicked. step_M. by destruct (_nodeDrag s).
Qed.

Lemma nodeMovedOf_app es1 es2 :
  nodeMovedOf (es1 ++ es2) = nodeMovedOf es1 ++ nodeMovedOf es2.
Proof. apply omap_app. Qed.

(** Position updates of a node that has a proxy: any positive number of
    them arms the flag and emits no [nodeMoved]. *)
Lemma positionUpdates_arm g nodeId n (k : nat) s :
  _nodeGraphicsObjects s !! nodeId = Some n →
  let updates := for_each (replicate (S k) nodeId) (onNodePositionUpdated g) in
  _nodeDrag (exec updates s) = true ∧
  nodeMovedOf (effects updates s) = [].
Proof.
  revert s. induction k as [|k IH]; intros s Hn.
  - simpl. step_M.
    rewrite onNodePositionUpdated_exec, onNodePositionUpdated_effects, Hn.
    done.
  - change (replicate (S (S k)) nodeId)
      with (nodeId :: replicate (S k) nodeId).
    simpl for_each. cbv zeta. rewrite exec_bind, effects_bind, nodeMovedOf_app.
    rewrite onNodePositionUpdated_exec, onNodePositionUpdated_effects, Hn.
    destruct (IH (set_nodeDrag true s)) as [Hdrag Hnone]; [done|].
    simpl in Hdrag, Hnone. by rewrite Hdrag, Hnone.
Qed.

(** C8: a position update of a node with a proxy arms [_nodeDrag]; no
    position update emits [nodeMoved]; a click emits [nodeMoved] with the
    model's position exactly when the flag is armed and always clears the
    flag; so a whole drag gesture emits [nodeMoved] once, and a click that
    follows a click emits nothing. *)
Theorem C8_nodeMoved_once_per_drag :
  (∀ g id s n,
     _nodeGraphicsObjects s !! id = Some n →
     _nodeDrag (exec (onNodePositionUpdated g id) s) = true) ∧
  (∀ g id s, nodeMovedOf (effects (onNodePositionUpdated g id) s) = []) ∧
  (∀ g id s,
     effects (onNodeClicked g id) s =
       (if _nodeDrag s
        then [NodeMoved id (nodeData_Position g id); Modified]
        else []) ∧
     _nodeDrag (exec (onNodeClicked g id) s) = false) ∧
  (∀ g id, effects (onNodeClicked g id) (BasicGraphicsScene g) = []) ∧
  (∀ g id s n k,
     _nodeGraphicsObjects s !! id = Some n →
     nodeMovedOf (effects (dragGesture g id k) s) =
       [(id, nodeData_Position g id)] ∧
     ∀ id', effects (onNodeClicked g id') (exec (dragGesture g id k) s) = []).
Proof.
  split; [|split; [|split; [|split]]].
  - intros g id s n Hn. by rewrite onNodePositionUpdated_exec, Hn.
  - intros g id s. rewrite onNodePositionUpdated_effects.
    by destruct (_nodeGraphicsObjects s !! id).
  - intros g id s. by rewrite onNodeClicked_exec, onNodeClicked_effects.
  - intros g id. rewrite onNodeClicked_effects.
    unfold BasicGraphicsScene.
    destruct (traverse_state g initialScene) as (_ & _ & Hrest & _).
    unfold besidesRegistry in Hrest. simpl in Hrest. simplify_eq.
    by replace (_nodeDrag _) with false.
  - intros g id s n k Hn. unfold dragGesture.
    destruct (positionUpdates_arm g id n k s Hn) as [Hdrag Hnone].
    cbv zeta in Hdrag, Hnone. split.
    + rewrite effects_bind, nodeMovedOf_app, Hnone.
      rewrite onNodeClicked_effects. by rewrite Hdrag.
    + intros id'. rewrite exec_bind, onNodeClicked_exec.
      by rewrite onNodeClicked_effects.
Qed.

(** Node B of the example scene has a proxy: one update arms the flag, and
    a gesture of three updates and a click reports one move. *)
Lemma C8_nodeMoved_once_per_drag_witness :
  _nodeGraphicsObjects sceneABC !! nodeB =
    Some {| ngo_obj := 1; ngo_nodeId := nodeB |} ∧
  _nodeDrag (exec (onNodePositionUpdated modelABC nodeB) sceneABC) = true ∧
  nodeMovedOf (effects (dragGesture modelABC nodeB 2) sceneABC) =
    [(nodeB, nodeData_Position modelABC nodeB)].
Proof.
  assert (Hn : _nodeGraphicsObjects sceneABC !! nodeB =
                 Some {| ngo_obj := 1; ngo_nodeId := nodeB |})
    by reflexivity.
  destruct C8_nodeMoved_once_per_drag as (Harm & _ & _ & _ & Hdrag).
  split; [exact Hn|]. split.
  - exact (Harm modelABC nodeB sceneABC _ Hn).
  - exact (proj1 (Hdrag modelABC nodeB sceneABC _ 2%nat Hn)).
Defined.

(** ** Labels *)

Lemma addTextUnderConnection_exec id txt s c :
  _connectionGraphicsObjects s !! id = Some c →
  exec (addTextUnderConnection id txt) s =
    set_connectionGraphicsObjects
      (alter (connect_positionChanged (heapNext s)) id)
      (set_textItems <[id := heapNext s]>
         (set_sceneTextItems
            <[heapNext s := {| txt_text := txt;
                               txt_pos := textPosition (cgo_in c) |}]>
            (set_heapNext N.succ s))).
Proof.
  intros Hc. unfold addTextUnderConnection. step_M. rewrite Hc. by step_M.
Qed.


Lemma positionChangedSlot_lookup textItemPtr c s t :
  sceneTextItems (exec (positionChangedSlot textItemPtr c) s) !! t =
    if decide (textItemPtr = t)
    then setPos (textPosition (cgo_in c)) <$> sceneTextItems s !! t
    else sceneTextItems s !! t.
Proof.
  unfold positionChangedSlot. step_M.
  destruct (sceneTextItems s !! textItemPtr) eqn:Hlive; step_M.
  - rewrite lookup_alter. by destruct (decide (textItemPtr = t)) as [->|].
  - destruct (decide (textItemPtr = t)) as [<-|]; [|done]. by rewrite Hlive.
Qed.

Lemma positionChanged_slots_lookup c (l : list ObjId) s t :
  sceneTextItems
    (exec (for_each l (fun p => positionChangedSlot p c)) s) !! t =
    if decide (t ∈ l)
    then setPos (textPosition (cgo_in c)) <$> sceneTextItems s !! t
    else sceneTextItems s !! t.
Proof.
  revert s. induction l as [|x l IH]; intros s.
  - destruct (decide (t ∈ [])) as [Hin|]; [|done].
    by apply elem_of_nil in Hin.
  - simpl for_each. rewrite exec_bind, IH, positionChangedSlot_lookup.
    destruct (decide (x = t)) as [->|Hne].
    + rewrite (decide_True (P := t ∈ t :: l)) by by left.
      destruct (decide (t ∈ l)); [|done].
      by destruct (sceneTextItems s !! t).
    + destruct (decide (t ∈ l)) as [Hin|Hnin].
      * by rewrite decide_True by by right.
      * rewrite decide_False; [done|].
        intros [?|?]%elem_of_cons; by simplify_eq.
Qed.



(** ** The annotated connections *)

Lemma getConnections_ids s :
  ci_connectionId <$> getConnections s = (map_to_list (_dialogs s)).*1.
Proof.
  unfold getConnections. change (@map) with (@fmap list list_fmap).
  rewrite <- list_fmap_compose. by apply list_fmap_ext.
Qed.

Lemma openDialog_dialogs_new connectionId s :
  _dialogs s !! connectionId = None →
  _dialogs (exec (openDialog connectionId) s) =
    <[connectionId :=
        ({| dlg_obj := heapNext s;
            dlg_items := flat_map getColumnHeaders (m_record s);
            dlg_visible := true |}, "")]> (_dialogs s).
Proof.
  intros Hnone. unfold openDialog. step_M. rewrite Hnone. step_M.
  by rewrite alter_insert_eq.
Qed.

(** C10: [getConnections] lists every connection id of [_dialogs] once
    and no other; each entry carries the two node ids of its connection
    id, port type Out on the outgoing and In on the incoming side, and the
    name stored with the dialog; a connection whose dialog was just opened
    for the first time is listed with the empty name. *)
Theorem C10_getConnections_per_dialog :
  (∀ s, NoDup (ci_connectionId <$> getConnections s)) ∧
  (∀ s, length (getConnections s) = size (_dialogs s)) ∧
  (∀ s c, c ∈ (ci_connectionId <$> getConnections s) ↔
          is_Some (_dialogs s !! c)) ∧
  (∀ s e, e ∈ getConnections s →
     ci_portTypeOut e = PortType.Out ∧
     ci_portTypeIn e = PortType.In ∧
     ci_nodeIdOut e = outNodeId (ci_connectionId e) ∧
     ci_nodeIdIn e = inNodeId (ci_connectionId e) ∧
     snd <$> _dialogs s !! ci_connectionId e = Some (ci_templateName e)) ∧
  (∀ s c,
     _dialogs s !! c = None →
     {| ci_connectionId := c;
        ci_nodeIdOut := outNodeId c;
        ci_nodeIdIn := inNodeId c;
        ci_portTypeIn := PortType.In;
        ci_portTypeOut := PortType.Out;
        ci_templateName := "" |} ∈ getConnections (exec (openDialog c) s)).
Proof.
  split; [|split; [|split; [|split]]].
  - intros s. rewrite getConnections_ids. apply NoDup_fst_map_to_list.
  - intros s. unfold getConnections.
    by rewrite length_map, length_map_to_list.
  - intros s c. rewrite getConnections_ids. split.
    + intros ([c' v] & -> & Hin)%list_elem_of_fmap.
      apply elem_of_map_to_list in Hin. by eexists.
    + intros [v Hv]. apply list_elem_of_fmap. exists (c, v).
      split; [done|]. by apply elem_of_map_to_list.
  - intros s e He. unfold getConnections in He.
    apply list_elem_of_In, in_map_iff in He as ([c v] & <- & Hin).
    apply list_elem_of_In, elem_of_map_to_list in Hin. simpl.
    by rewrite Hin.
  - intros s c Hnone. unfold getConnections.
    apply list_elem_of_In, in_map_iff.
    eexists (c, (_, "")). split; [reflexivity|].
    apply list_elem_of_In, elem_of_map_to_list.
    rewrite (openDialog_dialogs_new _ _ Hnone). apply lookup_insert_eq.
Qed.

(** The annotated session is reported with its chosen name; a dialog
    opened on the example scene, nothing chosen, with the empty name. *)
Lemma C10_getConnections_per_dialog_witness :
  (getConnections annotatedScene =
     [ {| ci_connectionId := connAC;
          ci_nodeIdOut := nodeA;
          ci_nodeIdIn := nodeC;
          ci_portTypeIn := PortType.In;
          ci_portTypeOut := PortType.Out;
          ci_templateName := "Header1" |} ] ∧
   snd <$> _dialogs annotatedScene !! connAC = Some "Header1") ∧
  (_dialogs sceneABC !! connAC = None ∧
   {| ci_connectionId := connAC;
      ci_nodeIdOut := nodeA;
      ci_nodeIdIn := nodeC;
      ci_portTypeIn := PortType.In;
      ci_portTypeOut := PortType.Out;
      ci_templateName := "" |}
     ∈ getConnections (exec (openDialog connAC) sceneABC)).
Proof.
  destruct C10_getConnections_per_dialog as (_ & _ & _ & Hentry & Hopened).
  split.
  - split; [reflexivity|].
    refine (proj2 (proj2 (proj2 (proj2 (Hentry annotatedScene
      {| ci_connectionId := connAC;
         ci_nodeIdOut := nodeA;
         ci_nodeIdIn := nodeC;
         ci_portTypeIn := PortType.In;
         ci_portTypeOut := PortType.Out;
         ci_templateName := "Header1" |} _))))).
    by left.
  - split; [reflexivity|]. apply Hopened. reflexivity.
Defined.

(** * Further properties of the scene *)

(** ** Closed forms of the remaining handlers *)

Lemma for_each_preserves {A} (P : Scene -> Prop) (l : list A)
    (body : A -> M unit) :
  (∀ x s, x ∈ l → P s → P (exec (body x) s)) →
  ∀ s, P s → P (exec (for_each l body) s).
Proof.
  induction l as [|x l IH]; intros Hbody s Hs; [done|].
  simpl for_each. rewrite exec_bind. apply IH.
  - intros y s' Hy. apply Hbody. by right.
  - apply Hbody; [by left|done].
Qed.

Lemma onNodeCreated_exec nodeId s :
  exec (onNodeCreated nodeId) s =
    set_nodeGraphicsObjects
      <[nodeId := {| ngo_obj := heapNext s; ngo_nodeId := nodeId |}]>
      (set_heapNext N.succ s).
Proof. reflexivity. Qed.

Lemma onNodeUpdated_exec nodeId s : exec (onNodeUpdated nodeId) s = s.
Proof.
  unfold onNodeUpdated, nodeGraphicsObject. step_M.
  by destruct (_nodeGraphicsObjects s !! nodeId).
Qed.

Lemma onNodeUpdated_effects nodeId s :
  effects (onNodeUpdated nodeId) s =
    match _nodeGraphicsObjects s !! nodeId with
    | Some n =>
        [SetGeometryChanged (ngo_obj n);
         RecomputeSize (_nodeGeometry s) nodeId;
         UpdateQWidgetEmbedPos (ngo_obj n);
         Update (ngo_obj n);
         MoveConnections (ngo_obj n)]
    | None => []
    end.
Proof.
  unfold onNodeUpdated, nodeGraphicsObject. step_M.
  by destruct (_nodeGraphicsObjects s !! nodeId).
Qed.

Lemma getRecordTemplates_run inputRecordVector s :
  getRecordTemplates inputRecordVector s =
    (tt, set_record (fun l => l ++ inputRecordVector) s, []).
Proof.
  unfold getRecordTemplates.
  revert s. induction inputRecordVector as [|r l IH]; intros s.
  - simpl. unfold ret, set_record. destruct s; simpl.
    by rewrite app_nil_r.
  - simpl for_each. rewrite run_bind. unfold value, exec, effects.
    rewrite IH. simpl. unfold set_record; simpl.
    by rewrite <- app_assoc.
Qed.

Lemma makeDraftConnection_exec g x s :
  exec (makeDraftConnection g x) s =
    set_draftConnection
      (Some {| cgo_obj := heapNext s;
               cgo_connectionId := x;
               cgo_in := connectionInPoint g x;
               cgo_color := None;
               cgo_doubleClicked := false;
               cgo_positionChanged := [] |})
      (set_heapNext N.succ s).
Proof. reflexivity. Qed.

Lemma openDialog_exec connectionId s :
  exec (openDialog connectionId) s =
    match _dialogs s !! connectionId with
    | Some (d, name) =>
        set_dialogs <[connectionId := (setVisible true d, name)]> s
    | None =>
        set_dialogs
          <[connectionId :=
              ({| dlg_obj := heapNext s;
                  dlg_items := flat_map getColumnHeaders (m_record s);
                  dlg_visible := true |}, "")]>
          (set_heapNext N.succ s)
    end.
Proof.
  unfold openDialog. step_M.
  destruct (_dialogs s !! connectionId) as [[d name]|] eqn:Hd; step_M.
  - unfold set_dialogs; simpl. f_equal.
    apply map_eq. intros k. rewrite lookup_alter, lookup_insert.
    destruct (decide (connectionId = k)) as [<-|]; [|done].
    by rewrite Hd.
  - unfold set_dialogs; simpl. by rewrite alter_insert_eq.
Qed.

Lemma openDialog_effects connectionId s :
  effects (openDialog connectionId) s = [Modified].
Proof.
  unfold openDialog. step_M.
  by destruct (_dialogs s !! connectionId); step_M.
Qed.

Lemma addTextUnderConnection_absent connectionId templateText s :
  _connectionGraphicsObjects s !! connectionId = None →
  addTextUnderConnection connectionId templateText s = (tt, s, []).
Proof.
  intros Hnone. unfold addTextUnderConnection. run_M. by rewrite Hnone.
Qed.

Lemma addTextUnderConnection_effects connectionId templateText s :
  effects (addTextUnderConnection connectionId templateText) s = [].
Proof.
  unfold addTextUnderConnection. step_M.
  by destruct (_connectionGraphicsObjects s !! connectionId); step_M.
Qed.

(** The OK slot with an entry selected, for a connection that has a
    proxy. *)
Lemma okButtonClicked_exec_proxy f connectionId selected s c :
  _connectionGraphicsObjects s !! connectionId = Some c →
  exec (okButtonClicked f connectionId (Some selected)) s =
    {| heapNext := N.succ (heapNext s);
       _nodeGeometry := _nodeGeometry s;
       _nodeGraphicsObjects := _nodeGraphicsObjects s;
       _connectionGraphicsObjects :=
         <[connectionId :=
             connect_positionChanged (heapNext s)
               (setConnectionColor (f selected) c)]>
           (_connectionGraphicsObjects s);
       _draftConnection := _draftConnection s;
       _nodeDrag := _nodeDrag s;
       _orientation := _orientation s;
       _dialogs :=
         alter (fun p => (setVisible false p.1, selected)) connectionId
               (_dialogs s);
       _textItems := <[connectionId := heapNext s]> (_textItems s);
       m_record := m_record s;
       sceneTextItems :=
         <[heapNext s := {| txt_text := selected;
                            txt_pos := textPosition (cgo_in c) |}]>
           (sceneTextItems s) |}.
Proof.
  intros Hc. destruct s as [hn ge no co dr nd ori di ti re st]. simpl in Hc.
  unfold okButtonClicked, connectionGraphicsObject.
  step_M. rewrite Hc. step_M. rewrite lookup_alter_eq, Hc. step_M.
  erewrite addTextUnderConnection_exec
    by (simpl; by rewrite lookup_alter_eq, Hc).
  simpl. unfold set_dialogs; simpl. f_equal.
  - apply map_eq. intros k.
    destruct (decide (connectionId = k)) as [<-|Hne].
    + by rewrite !lookup_alter_eq, lookup_insert_eq, Hc.
    + by rewrite !lookup_alter_ne, lookup_insert_ne by done.
  - apply map_eq. intros k.
    destruct (decide (connectionId = k)) as [<-|Hne].
    + rewrite !lookup_alter_eq.
      by destruct (di !! connectionId) as [[d name]|].
    + by rewrite !lookup_alter_ne by done.
Qed.

(** The OK slot with an entry selected, for a connection without proxy. *)
Lemma okButtonClicked_exec_no_proxy f connectionId selected s :
  _connectionGraphicsObjects s !! connectionId = None →
  exec (okButtonClicked f connectionId (Some selected)) s =
    set_dialogs
      (alter (fun p => (setVisible false p.1, selected)) connectionId) s.
Proof.
  intros Hc. destruct s as [hn ge no co dr nd ori di ti re st]. simpl in Hc.
  unfold okButtonClicked, connectionGraphicsObject.
  step_M. rewrite Hc. step_M. rewrite Hc. step_M.
  unfold exec. rewrite addTextUnderConnection_absent by done. simpl.
  unfold set_dialogs; simpl. f_equal.
  apply map_eq. intros k.
  destruct (decide (connectionId = k)) as [<-|Hne].
  - rewrite !lookup_alter_eq.
    by destruct (di !! connectionId) as [[d name]|].
  - by rewrite !lookup_alter_ne by done.
Qed.

Lemma okButtonClicked_exec_none f connectionId s :
  exec (okButtonClicked f connectionId None) s =
    set_dialogs
      (alter (fun p => (setVisible false p.1, p.2)) connectionId) s.
Proof. reflexivity. Qed.

Lemma okButtonClicked_effects f connectionId selected s :
  effects (okButtonClicked f connectionId (Some selected)) s =
    match _connectionGraphicsObjects s !! connectionId with
    | Some c => [Update (cgo_obj c); Update (cgo_obj c)]
    | None => []
    end.
Proof.
  destruct s as [hn ge no co dr nd ori di ti re st].
  unfold okButtonClicked, connectionGraphicsObject. step_M.
  destruct (co !! connectionId) as [c|] eqn:Hc; step_M.
  - rewrite lookup_alter_eq, Hc. step_M.
    by rewrite addTextUnderConnection_effects.
  - rewrite Hc. step_M. by rewrite addTextUnderConnection_effects.
Qed.

Lemma okButtonClicked_dialogs f connectionId selected s :
  _dialogs (exec (okButtonClicked f connectionId (Some selected)) s) =
    alter (fun p => (setVisible false p.1, selected)) connectionId
          (_dialogs s).
Proof.
  destruct (_connectionGraphicsObjects s !! connectionId) as [c|] eqn:Hc.
  - by rewrite (okButtonClicked_exec_proxy _ _ _ _ _ Hc).
  - by rewrite (okButtonClicked_exec_no_proxy _ _ _ _ Hc).
Qed.

(** ** Category templates and dialogs *)

(** X1: Templates accumulate in the order they are supplied, over several
    calls; a dialog opened for the first time lists the column headers of
    all templates supplied so far, template by template. *)
Theorem X1_templates_accumulate :
  (∀ l1 l2 s,
     exec (getRecordTemplates l2) (exec (getRecordTemplates l1) s) =
       exec (getRecordTemplates (l1 ++ l2)) s) ∧
  (∀ l s, m_record (exec (getRecordTemplates l) s) = m_record s ++ l) ∧
  (∀ l s c,
     _dialogs s !! c = None →
     (dlg_items ∘ fst) <$>
       _dialogs (exec (openDialog c) (exec (getRecordTemplates l) s)) !! c =
     Some (flat_map getColumnHeaders (m_record s) ++
           flat_map getColumnHeaders l)).
Proof.
  split; [|split].
  - intros l1 l2 s. unfold exec. rewrite !getRecordTemplates_run. simpl.
    unfold set_record; simpl. by rewrite app_assoc.
  - intros l s. unfold exec. by rewrite getRecordTemplates_run.
  - intros l s c Hnone. rewrite openDialog_exec.
    unfold exec. rewrite getRecordTemplates_run. simpl. rewrite Hnone.
    simpl. rewrite lookup_insert_eq. simpl. by rewrite flat_map_app.
Qed.

(** On the example scene no dialog exists; with two templates supplied the
    first dialog lists their headers in order. *)
Lemma X1_templates_accumulate_witness :
  _dialogs sceneABC !! connAC = None ∧
  (dlg_items ∘ fst) <$>
    _dialogs (exec (openDialog connAC)
                (exec (getRecordTemplates
                         [ {| getColumnHeaders := ["a"; "b"] |};
                           {| getColumnHeaders := ["c"] |} ]) sceneABC))
      !! connAC = Some ["a"; "b"; "c"].
Proof.
  split; [vm_compute; reflexivity|].
  destruct X1_templates_accumulate as (_ & _ & H).
  apply (H [ {| getColumnHeaders := ["a"; "b"] |};
             {| getColumnHeaders := ["c"] |} ] sceneABC connAC).
  vm_compute; reflexivity.
Defined.

(** X2: Opening the dialog of a connection that already has one shows the
    same dialog again: same object, same item list even when templates
    were supplied in between, same stored name; nothing is constructed
    and no entry is added. *)
Theorem X2_openDialog_reuses_dialog :
  ∀ s c d name l,
    _dialogs s !! c = Some (d, name) →
    let s' := exec (openDialog c) (exec (getRecordTemplates l) s) in
    _dialogs s' !! c = Some (setVisible true d, name) ∧
    dom (_dialogs s') = dom (_dialogs s) ∧
    heapNext s' = heapNext s ∧
    (∀ c', c' ≠ c → _dialogs s' !! c' = _dialogs s !! c').
Proof.
  intros s c d name l Hd. cbv zeta. rewrite openDialog_exec.
  unfold exec. rewrite getRecordTemplates_run. simpl. rewrite Hd. simpl.
  rewrite lookup_insert_eq. repeat split.
  - rewrite dom_insert_L. apply elem_of_dom_2 in Hd. set_solver.
  - intros c' Hne. by rewrite lookup_insert_ne.
Qed.

Lemma X2_openDialog_reuses_dialog_witness :
  dlg_obj ∘ fst <$> _dialogs annotatedScene !! connAC = Some 3 ∧
  (dlg_obj ∘ fst) <$>
    _dialogs (exec (openDialog connAC)
                (exec (getRecordTemplates [ {| getColumnHeaders := ["a"] |} ])
                      annotatedScene)) !! connAC = Some 3.
Proof.
  split; [vm_compute; reflexivity|].
  destruct (X2_openDialog_reuses_dialog annotatedScene connAC
              {| dlg_obj := 3; dlg_items := []; dlg_visible := false |}
              "Header1" [ {| getColumnHeaders := ["a"] |} ])
    as (Hd & _); [vm_compute; reflexivity|].
  cbv zeta in Hd. rewrite Hd. reflexivity.
Defined.

(** X3: Choosing an entry in the dialog of a connection stores the name with
    the dialog and hides it, so that [getConnections] reports the
    connection under that name; a registered proxy takes the colour
    [getColorForHeader] gives for the name; other dialogs are untouched. *)
Theorem X3_selection_round_trip :
  ∀ f s c d name selected,
    _dialogs s !! c = Some (d, name) →
    let s' := exec (okButtonClicked f c (Some selected)) s in
    _dialogs s' !! c = Some (setVisible false d, selected) ∧
    {| ci_connectionId := c;
       ci_nodeIdOut := outNodeId c;
       ci_nodeIdIn := inNodeId c;
       ci_portTypeIn := PortType.In;
       ci_portTypeOut := PortType.Out;
       ci_templateName := selected |} ∈ getConnections s' ∧
    (∀ p, _connectionGraphicsObjects s !! c = Some p →
       cgo_color <$> _connectionGraphicsObjects s' !! c =
         Some (Some (f selected))) ∧
    (∀ c', c' ≠ c → _dialogs s' !! c' = _dialogs s !! c').
Proof.
  intros f s c d name selected Hd. cbv zeta.
  assert (Hentry :
    _dialogs (exec (okButtonClicked f c (Some selected)) s) !! c =
      Some (setVisible false d, selected)).
  { by rewrite okButtonClicked_dialogs, lookup_alter_eq, Hd. }
  split; [exact Hentry|]. split; [|split].
  - unfold getConnections. apply list_elem_of_In, in_map_iff.
    exists (c, (setVisible false d, selected)). split; [done|].
    by apply list_elem_of_In, elem_of_map_to_list.
  - intros p Hp. rewrite (okButtonClicked_exec_proxy _ _ _ _ _ Hp). simpl.
    by rewrite lookup_insert_eq.
  - intros c' Hne. rewrite okButtonClicked_dialogs.
    by rewrite lookup_alter_ne.
Qed.

Lemma X3_selection_round_trip_witness :
  snd <$> _dialogs annotatedScene !! connAC = Some "Header1" ∧
  cgo_color <$>
    _connectionGraphicsObjects
      (exec (okButtonClicked (fun _ => 9) connAC (Some "Header2"))
            annotatedScene) !! connAC = Some (Some 9).
Proof.
  split; [vm_compute; reflexivity|].
  destruct (X3_selection_round_trip (fun _ => 9) annotatedScene connAC
              {| dlg_obj := 3; dlg_items := []; dlg_visible := false |}
              "Header1" "Header2")
    as (_ & _ & Hcolour & _); [vm_compute; reflexivity|].
  apply (Hcolour
    {| cgo_obj := 2; cgo_connectionId := connAC;
       cgo_in := mkQPointF 100 20; cgo_color := Some 0;
       cgo_doubleClicked := true; cgo_positionChanged := [4] |}).
  vm_compute; reflexivity.
Defined.

(** X4: Two edge cases of the OK slot.  With nothing selected it only hides
    the dialog: the dialog of the connection becomes invisible and keeps
    its name, every other dialog, the proxies, labels and text items stay
    and nothing is emitted.  With an entry selected for a connection that
    has no proxy it hides the dialog and records the name but creates no
    label and constructs nothing. *)
Theorem X4_ok_without_selection_or_proxy :
  (∀ f c s d name,
     _dialogs s !! c = Some (d, name) →
     let s' := exec (okButtonClicked f c None) s in
     _dialogs s' !! c =
       Some ({| dlg_obj := dlg_obj d; dlg_items := dlg_items d;
                dlg_visible := false |}, name) ∧
     (∀ c', c' ≠ c → _dialogs s' !! c' = _dialogs s !! c') ∧
     _connectionGraphicsObjects s' = _connectionGraphicsObjects s ∧
     _textItems s' = _textItems s ∧
     sceneTextItems s' = sceneTextItems s ∧
     heapNext s' = heapNext s ∧
     effects (okButtonClicked f c None) s = []) ∧
  (∀ f c selected s d name,
     _dialogs s !! c = Some (d, name) →
     _connectionGraphicsObjects s !! c = None →
     let s' := exec (okButtonClicked f c (Some selected)) s in
     _dialogs s' !! c =
       Some ({| dlg_obj := dlg_obj d; dlg_items := dlg_items d;
                dlg_visible := false |}, selected) ∧
     (∀ c', c' ≠ c → _dialogs s' !! c' = _dialogs s !! c') ∧
     _textItems s' = _textItems s ∧
     sceneTextItems s' = sceneTextItems s ∧
     _connectionGraphicsObjects s' = _connectionGraphicsObjects s ∧
     heapNext s' = heapNext s ∧
     effects (okButtonClicked f c (Some selected)) s = []).
Proof.
  split.
  - intros f c s d name Hd. cbv zeta. rewrite okButtonClicked_exec_none.
    simpl. rewrite lookup_alter_eq, Hd. repeat split.
    intros c' Hne. by rewrite lookup_alter_ne.
  - intros f c selected s d name Hd Hc. cbv zeta.
    rewrite (okButtonClicked_exec_no_proxy _ _ _ _ Hc). simpl.
    rewrite lookup_alter_eq, Hd. repeat split.
    + intros c' Hne. by rewrite lookup_alter_ne.
    + by rewrite okButtonClicked_effects, Hc.
Qed.

(** After the annotated session the dialog is opened again and the model
    is reset to the empty one: the connection has a visible dialog named
    "Header1" and no proxy.  OK then hides the dialog in both cases. *)
Lemma X4_ok_without_selection_or_proxy_witness :
  _dialogs (exec (onModelReset modelEmpty)
              (exec (openDialog connAC) annotatedScene)) !! connAC =
    Some ({| dlg_obj := 3; dlg_items := []; dlg_visible := true |},
          "Header1") ∧
  _connectionGraphicsObjects
    (exec (onModelReset modelEmpty)
       (exec (openDialog connAC) annotatedScene)) !! connAC = None ∧
  _dialogs
    (exec (okButtonClicked (fun _ => 0) connAC None)
       (exec (onModelReset modelEmpty)
          (exec (openDialog connAC) annotatedScene))) !! connAC =
    Some ({| dlg_obj := 3; dlg_items := []; dlg_visible := false |},
          "Header1") ∧
  _dialogs
    (exec (okButtonClicked (fun _ => 0) connAC (Some "Header2"))
       (exec (onModelReset modelEmpty)
          (exec (openDialog connAC) annotatedScene))) !! connAC =
    Some ({| dlg_obj := 3; dlg_items := []; dlg_visible := false |},
          "Header2").
Proof.
  assert (Hd : _dialogs (exec (onModelReset modelEmpty)
              (exec (openDialog connAC) annotatedScene)) !! connAC =
    Some ({| dlg_obj := 3; dlg_items := []; dlg_visible := true |},
          "Header1")) by (vm_compute; reflexivity).
  destruct X4_ok_without_selection_or_proxy as [Hnone Hsel].
  split; [exact Hd|]. split; [vm_compute; reflexivity|]. split.
  - destruct (Hnone (fun _ => 0) connAC _ _ _ Hd) as (H & _).
    exact H.
  - destruct (Hsel (fun _ => 0) connAC "Header2" _ _ _ Hd) as (H & _);
      [vm_compute; reflexivity|].
    exact H.
Defined.

(** X5: Choosing a second time adds a second text item: both labels stay in
    the scene and both follow the connection, while [_textItems] keeps only
    the later one.  Deleting the connection then deletes the later label
    only; the earlier one stays among the scene's text items. *)
Theorem X5_reselection_keeps_old_label :
  ∀ f s c p first second,
    is_Some (_dialogs s !! c) →
    _connectionGraphicsObjects s !! c = Some p →
    let t1 := heapNext s in
    let t2 := N.succ (heapNext s) in
    let s2 := exec (okButtonClicked f c (Some second))
                (exec (okButtonClicked f c (Some first)) s) in
    let s3 := exec (onConnectionDeleted c) s2 in
    _textItems s2 !! c = Some t2 ∧
    sceneTextItems s2 !! t1 =
      Some {| txt_text := first; txt_pos := textPosition (cgo_in p) |} ∧
    sceneTextItems s2 !! t2 =
      Some {| txt_text := second; txt_pos := textPosition (cgo_in p) |} ∧
    cgo_positionChanged <$> _connectionGraphicsObjects s2 !! c =
      Some (cgo_positionChanged p ++ [t1; t2]) ∧
    _textItems s3 !! c = None ∧
    _connectionGraphicsObjects s3 !! c = None ∧
    sceneTextItems s3 !! t2 = None ∧
    sceneTextItems s3 !! t1 =
      Some {| txt_text := first; txt_pos := textPosition (cgo_in p) |}.
Proof.
  intros f s c p first second _ Hp. cbv zeta.
  rewrite onConnectionDeleted_exec.
  rewrite (okButtonClicked_exec_proxy f c first s p Hp).
  erewrite okButtonClicked_exec_proxy by (simpl; apply lookup_insert_eq).
  simpl. rewrite !lookup_insert_eq, !lookup_delete_eq. simpl.
  rewrite lookup_delete_eq.
  assert (Hne : N.succ (heapNext s) ≠ heapNext s) by lia.
  rewrite lookup_delete_ne by done.
  rewrite !lookup_insert_ne by done. rewrite lookup_insert_eq.
  repeat split. by rewrite <- app_assoc.
Qed.

(** The annotated session already has one label (text item 4); two more
    choices add text items 5 and 6, and deleting the connection leaves 5. *)
Lemma X5_reselection_keeps_old_label_witness :
  is_Some (_dialogs annotatedScene !! connAC) ∧
  is_Some (_connectionGraphicsObjects annotatedScene !! connAC) ∧
  heapNext annotatedScene = 5 ∧
  txt_text <$>
    sceneTextItems
      (exec (onConnectionDeleted connAC)
         (exec (okButtonClicked (fun _ => 0) connAC (Some "second"))
            (exec (okButtonClicked (fun _ => 0) connAC (Some "first"))
               annotatedScene))) !! 5 = Some "first".
Proof.
  assert (Hd : is_Some (_dialogs annotatedScene !! connAC))
    by (vm_compute; by eexists).
  split; [exact Hd|]. split; [vm_compute; by eexists|].
  split; [vm_compute; reflexivity|].
  destruct (X5_reselection_keeps_old_label (fun _ => 0) annotatedScene connAC
    {| cgo_obj := 2; cgo_connectionId := connAC;
       cgo_in := mkQPointF 100 20; cgo_color := Some 0;
       cgo_doubleClicked := true; cgo_positionChanged := [4] |}
    "first" "second" Hd) as (_ & _ & _ & _ & _ & _ & _ & H);
    [vm_compute; reflexivity|].
  cbv zeta in H.
  replace (heapNext annotatedScene) with 5 in H by (vm_compute; reflexivity).
  unfold ObjId in *. rewrite H. reflexivity.
Defined.

(** ** Registry lookups and round trips *)

(** X6: The two lookups agree with the notifications: after a creation the
    lookup of that id yields the object just constructed, after a deletion
    it yields null, and lookups of other ids are not affected by either;
    a lookup never changes the scene. *)
Theorem X6_lookup_after_notification :
  (∀ id s,
     value (nodeGraphicsObject id) (exec (onNodeCreated id) s) =
       Some {| ngo_obj := heapNext s; ngo_nodeId := id |} ∧
     value (nodeGraphicsObject id) (exec (onNodeDeleted id) s) = None) ∧
  (∀ g id s,
     cgo_obj <$>
       value (connectionGraphicsObject id) (exec (onConnectionCreated g id) s)
       = Some (heapNext s) ∧
     value (connectionGraphicsObject id) (exec (onConnectionDeleted id) s)
       = None) ∧
  (∀ id s, exec (nodeGraphicsObject id) s = s ∧
           effects (nodeGraphicsObject id) s = []) ∧
  (∀ id s, exec (connectionGraphicsObject id) s = s ∧
           effects (connectionGraphicsObject id) s = []) ∧
  (∀ g id id' s,
     id' ≠ id →
     value (nodeGraphicsObject id') (exec (onNodeCreated id) s) =
       value (nodeGraphicsObject id') s ∧
     value (nodeGraphicsObject id') (exec (onNodeDeleted id) s) =
       value (nodeGraphicsObject id') s ∧
     ∀ c, value (nodeGraphicsObject id') (exec (onConnectionCreated g c) s) =
            value (nodeGraphicsObject id') s) ∧
  (∀ g id id' s,
     id' ≠ id →
     value (connectionGraphicsObject id') (exec (onConnectionCreated g id) s) =
       value (connectionGraphicsObject id') s ∧
     value (connectionGraphicsObject id') (exec (onConnectionDeleted id) s) =
       value (connectionGraphicsObject id') s).
Proof.
  split; [|split; [|split; [|split; [|split]]]].
  - intros id s. rewrite onNodeCreated_exec, onNodeDeleted_exec.
    unfold nodeGraphicsObject. step_M.
    by rewrite lookup_insert_eq, lookup_delete_eq.
  - intros g id s. rewrite onConnectionCreated_exec, onConnectionDeleted_exec.
    unfold connectionGraphicsObject. step_M.
    by rewrite lookup_insert_eq, lookup_delete_eq.
  - done.
  - done.
  - intros g id id' s Hne.
    rewrite onNodeCreated_exec, onNodeDeleted_exec.
    unfold nodeGraphicsObject. step_M.
    rewrite lookup_insert_ne, lookup_delete_ne by done.
    repeat split. intros c. by rewrite onConnectionCreated_exec.
  - intros g id id' s Hne.
    rewrite onConnectionCreated_exec, onConnectionDeleted_exec.
    unfold connectionGraphicsObject. step_M.
    by rewrite lookup_insert_ne, lookup_delete_ne.
Qed.

Lemma X6_lookup_after_notification_witness :
  nodeB ≠ nodeA ∧
  value (nodeGraphicsObject nodeB) (exec (onNodeDeleted nodeA) sceneABC) =
    Some {| ngo_obj := 1; ngo_nodeId := nodeB |} ∧
  connAC ≠ mkConnectionId nodeB 0 nodeC 0 ∧
  cgo_obj <$>
    value (connectionGraphicsObject connAC)
      (exec (onConnectionDeleted (mkConnectionId nodeB 0 nodeC 0)) sceneABC)
    = Some 3.
Proof.
  assert (Hne : nodeB ≠ nodeA) by discriminate.
  assert (Hne' : connAC ≠ mkConnectionId nodeB 0 nodeC 0) by discriminate.
  destruct X6_lookup_after_notification as (_ & _ & _ & _ & Hn & Hc).
  split; [exact Hne|]. split; [|split; [exact Hne'|]].
  - destruct (Hn modelABC nodeA nodeB sceneABC Hne) as (_ & Hdel & _).
    rewrite Hdel. vm_compute; reflexivity.
  - destruct (Hc modelABC _ connAC sceneABC Hne') as (_ & Hdel).
    rewrite Hdel. vm_compute; reflexivity.
Defined.

(** X7: A creation notification for an id without proxy, followed by the
    deletion notification for it, gives back the registry map as it was;
    both node handlers emit [modified]. *)
Theorem X7_create_then_delete :
  (∀ id s,
     _nodeGraphicsObjects s !! id = None →
     _nodeGraphicsObjects (exec (onNodeDeleted id) (exec (onNodeCreated id) s))
       = _nodeGraphicsObjects s ∧
     effects (onNodeCreated id ;; onNodeDeleted id) s =
       [NewNodeGraphicsObject (heapNext s) id; Modified; Modified]) ∧
  (∀ g id s,
     _connectionGraphicsObjects s !! id = None →
     _connectionGraphicsObjects
       (exec (onConnectionDeleted id) (exec (onConnectionCreated g id) s))
       = _connectionGraphicsObjects s ∧
     _nodeGraphicsObjects
       (exec (onConnectionDeleted id) (exec (onConnectionCreated g id) s))
       = _nodeGraphicsObjects s).
Proof.
  split.
  - intros id s Hnone. split.
    + rewrite onNodeDeleted_exec, onNodeCreated_exec. simpl.
      by rewrite delete_insert_id by done.
    + rewrite effects_bind, onNodeCreated_exec.
      unfold onNodeDeleted at 1. step_M. by rewrite lookup_insert_eq.
  - intros g id s Hnone.
    rewrite onConnectionDeleted_exec, onConnectionCreated_exec. simpl.
    by rewrite delete_insert_id by done.
Qed.

Lemma X7_create_then_delete_witness :
  _nodeGraphicsObjects initialScene !! nodeA = None ∧
  _connectionGraphicsObjects initialScene !! connAC = None ∧
  _nodeGraphicsObjects
    (exec (onNodeDeleted nodeA) (exec (onNodeCreated nodeA) initialScene))
    = _nodeGraphicsObjects initialScene ∧
  _connectionGraphicsObjects
    (exec (onConnectionDeleted connAC)
       (exec (onConnectionCreated modelABC connAC) initialScene))
    = _connectionGraphicsObjects initialScene.
Proof.
  destruct X7_create_then_delete as [Hnode Hconn].
  split; [vm_compute; reflexivity|]. split; [vm_compute; reflexivity|]. split.
  - apply (Hnode nodeA initialScene). vm_compute; reflexivity.
  - apply (Hconn modelABC connAC initialScene). vm_compute; reflexivity.
Defined.

(** ** Connection deletion *)

Lemma effects_get_bind {A} (k : Scene -> M A) s :
  effects (bind get k) s = effects (k s) s.
Proof. by rewrite effects_bind. Qed.

Lemma exec_get_bind {A} (k : Scene -> M A) s :
  exec (bind get k) s = exec (k s) s.
Proof. by rewrite exec_bind. Qed.

Lemma onConnectionDeleted_effects id s :
  effects (onConnectionDeleted id) s =
    match _nodeGraphicsObjects s !! outNodeId id with
    | Some n => [Update (ngo_obj n)]
    | None => []
    end ++
    match _nodeGraphicsObjects s !! inNodeId id with
    | Some n => [Update (ngo_obj n)]
    | None => []
    end ++ [Modified].
Proof.
  unfold onConnectionDeleted.
  rewrite effects_get_bind, effects_bind.
  set (m1 := match _connectionGraphicsObjects s !! id with
             | Some _ => _ | None => _ end).
  assert (H1 : effects m1 s = [] ∧
               _nodeGraphicsObjects (exec m1 s) = _nodeGraphicsObjects s).
  { subst m1. by destruct (_connectionGraphicsObjects s !! id). }
  destruct H1 as [-> Hn1]. revert Hn1. generalize (exec m1 s). clear m1.
  intros s1 Hn1.
  rewrite effects_get_bind, effects_bind.
  set (m2 := match _textItems s1 !! id with
             | Some _ => _ | None => _ end).
  assert (H2 : effects m2 s1 = [] ∧
               _nodeGraphicsObjects (exec m2 s1) = _nodeGraphicsObjects s).
  { subst m2. by destruct (_textItems s1 !! id). }
  destruct H2 as [-> Hn2]. revert Hn2. generalize (exec m2 s1). clear m2 s1 Hn1.
  intros s2 Hn2.
  rewrite effects_get_bind, effects_bind.
  set (m3 := match _draftConnection s2 with
             | Some _ => _ | None => _ end).
  assert (H3 : effects m3 s2 = [] ∧
               _nodeGraphicsObjects (exec m3 s2) = _nodeGraphicsObjects s).
  { subst m3. destruct (_draftConnection s2) as [d|]; [|done].
    by destruct (decide (cgo_connectionId d = id)). }
  destruct H3 as [-> Hn3]. revert Hn3. generalize (exec m3 s2). clear m3 s2 Hn2.
  intros s3 Hn3.
  rewrite !effects_bind, !updateAttachedNodes_exec,
    !updateAttachedNodes_effects, removeDialog_effects, effects_emit.
  simpl. by rewrite Hn3.
Qed.


(** X8: [onConnectionDeleted] touches nothing that belongs to another
    connection: proxies, dialogs and label entries of other ids stay, as
    do the node registry and every text item other than the label of the
    deleted id. *)
Theorem X8_connection_deletion_frame :
  ∀ id id' s,
    id' ≠ id →
    let s' := exec (onConnectionDeleted id) s in
    _connectionGraphicsObjects s' !! id' = _connectionGraphicsObjects s !! id' ∧
    _dialogs s' !! id' = _dialogs s !! id' ∧
    _textItems s' !! id' = _textItems s !! id' ∧
    _nodeGraphicsObjects s' = _nodeGraphicsObjects s ∧
    (∀ t, _textItems s !! id ≠ Some t →
       sceneTextItems s' !! t = sceneTextItems s !! t).
Proof.
  intros id id' s Hne. cbv zeta. rewrite onConnectionDeleted_exec. simpl.
  rewrite !lookup_delete_ne by done. repeat split.
  intros t Ht. destruct (_textItems s !! id) as [t'|]; simpl; [|done].
  apply lookup_delete_ne. congruence.
Qed.

(** Deleting another connection leaves the annotated connection with its
    proxy, dialog and label. *)
Lemma X8_connection_deletion_frame_witness :
  connAC ≠ mkConnectionId nodeB 0 nodeC 0 ∧
  _textItems
    (exec (onConnectionDeleted (mkConnectionId nodeB 0 nodeC 0)) annotatedScene)
    !! connAC = Some 4.
Proof.
  assert (Hne : connAC ≠ mkConnectionId nodeB 0 nodeC 0) by discriminate.
  split; [exact Hne|].
  destruct (X8_connection_deletion_frame (mkConnectionId nodeB 0 nodeC 0)
              connAC annotatedScene Hne) as (_ & _ & Ht & _).
  cbv zeta in Ht. etrans; [exact Ht|]. vm_compute; reflexivity.
Defined.

(** X9: [onConnectionDeleted] emits [modified] exactly once and last, after
    asking the registered nodes at both ends to repaint, whether or not
    anything was removed; for an id that has no proxy, label, dialog or
    draft it leaves the scene as it is. *)
Theorem X9_unknown_connection_deleted :
  (∀ id s,
     effects (onConnectionDeleted id) s =
       match _nodeGraphicsObjects s !! outNodeId id with
       | Some n => [Update (ngo_obj n)]
       | None => []
       end ++
       match _nodeGraphicsObjects s !! inNodeId id with
       | Some n => [Update (ngo_obj n)]
       | None => []
       end ++ [Modified]) ∧
  (∀ id s,
     _connectionGraphicsObjects s !! id = None →
     _textItems s !! id = None →
     _dialogs s !! id = None →
     resetDraftIf id (_draftConnection s) = _draftConnection s →
     exec (onConnectionDeleted id) s = s).
Proof.
  split; [exact onConnectionDeleted_effects|].
  intros id s Hc Ht Hd Hdraft.
  rewrite onConnectionDeleted_exec, Ht, Hdraft. simpl.
  rewrite !delete_id by done. by destruct s.
Qed.

Lemma X9_unknown_connection_deleted_witness :
  _connectionGraphicsObjects initialScene !! connAC = None ∧
  exec (onConnectionDeleted connAC) initialScene = initialScene ∧
  effects (onConnectionDeleted connAC) initialScene = [Modified].
Proof.
  split; [vm_compute; reflexivity|].
  destruct X9_unknown_connection_deleted as [Heff Hexec].
  split.
  - apply Hexec; vm_compute; reflexivity.
  - rewrite Heff. vm_compute; reflexivity.
Defined.

(** X10: Notifications about a node that has no proxy ([onNodeDeleted],
    [onNodePositionUpdated], [onNodeUpdated]) change nothing and emit
    nothing; in particular a stray position update does not arm the drag
    flag. *)
Theorem X10_unknown_node_ignored :
  ∀ g id s,
    _nodeGraphicsObjects s !! id = None →
    onNodeDeleted id s = (tt, s, []) ∧
    onNodePositionUpdated g id s = (tt, s, []) ∧
    onNodeUpdated id s = (tt, s, []) ∧
    effects (onNodeClicked g id) (exec (onNodePositionUpdated g id) s) =
      effects (onNodeClicked g id) s.
Proof.
  intros g id s Hnone. repeat split.
  - unfold onNodeDeleted. run_M. by rewrite Hnone.
  - unfold onNodePositionUpdated, nodeGraphicsObject. run_M. by rewrite Hnone.
  - unfold onNodeUpdated, nodeGraphicsObject. run_M. by rewrite Hnone.
  - by rewrite onNodePositionUpdated_exec, Hnone.
Qed.

Lemma X10_unknown_node_ignored_witness :
  _nodeGraphicsObjects sceneABC !! 9 = None ∧
  onNodePositionUpdated modelABC 9 sceneABC = (tt, sceneABC, []).
Proof.
  assert (H : _nodeGraphicsObjects sceneABC !! 9 = None)
    by (vm_compute; reflexivity).
  split; [exact H|].
  exact (proj1 (proj2 (X10_unknown_node_ignored modelABC 9 sceneABC H))).
Defined.

(** ** The draft connection and the registry *)

(** X11: A draft is kept apart from the registry: starting one changes neither
    registry, nor dialogs or labels, and the lookup of its id is as
    before; [onConnectionDeleted] for the draft's id discards the draft,
    for any other id it keeps it.  Resetting after starting leaves no
    draft, so a draft the scene held before is not brought back; apart
    from the draft member only the object counter differs from the scene
    before, and when that scene held no draft it is restored up to the
    object counter. *)
Theorem X11_draft_outside_registry :
  (∀ g x s,
     let s1 := exec (makeDraftConnection g x) s in
     _connectionGraphicsObjects s1 = _connectionGraphicsObjects s ∧
     _nodeGraphicsObjects s1 = _nodeGraphicsObjects s ∧
     _dialogs s1 = _dialogs s ∧
     _textItems s1 = _textItems s ∧
     value (connectionGraphicsObject x) s1 =
       value (connectionGraphicsObject x) s ∧
     _draftConnection (exec (onConnectionDeleted x) s1) = None ∧
     (∀ y, y ≠ x →
        _draftConnection (exec (onConnectionDeleted y) s1) =
          _draftConnection s1) ∧
     _draftConnection (exec resetDraftConnection s1) = None ∧
     exec resetDraftConnection s1 =
       set_heapNext N.succ (set_draftConnection None s)) ∧
  (∀ g x s,
     _draftConnection s = None →
     exec resetDraftConnection (exec (makeDraftConnection g x) s) =
       set_heapNext N.succ s) ∧
  (∀ g x s d,
     _draftConnection s = Some d →
     exec resetDraftConnection (exec (makeDraftConnection g x) s) ≠
       set_heapNext N.succ s).
Proof.
  split; [|split].
  - intros g x s. cbv zeta. rewrite makeDraftConnection_exec.
    rewrite !onConnectionDeleted_exec. simpl. repeat split.
    + by rewrite decide_True.
    + intros y Hne. rewrite onConnectionDeleted_exec. simpl.
      by rewrite decide_False.
  - intros g x s Hnone. rewrite makeDraftConnection_exec.
    destruct s; simpl in *. by subst.
  - intros g x s d Hd. rewrite makeDraftConnection_exec.
    destruct s; simpl in *. subst. intros Heq. discriminate Heq.
Qed.

(** The example scene holds no draft; the scene after starting a draft
    holds one. *)
Lemma X11_draft_outside_registry_witness :
  (mkConnectionId nodeB 0 nodeC 0 ≠ connAC ∧
   cgo_connectionId <$>
     _draftConnection
       (exec (onConnectionDeleted (mkConnectionId nodeB 0 nodeC 0))
             (exec (makeDraftConnection modelABC connAC) sceneABC))
     = Some connAC) ∧
  (_draftConnection sceneABC = None ∧
   exec resetDraftConnection
     (exec (makeDraftConnection modelABC connAC) sceneABC) =
     set_heapNext N.succ sceneABC) ∧
  (cgo_obj <$>
     _draftConnection (exec (makeDraftConnection modelABC connAC) sceneABC)
     = Some 4 ∧
   exec resetDraftConnection
     (exec (makeDraftConnection modelABC connAC)
        (exec (makeDraftConnection modelABC connAC) sceneABC)) ≠
     set_heapNext N.succ
       (exec (makeDraftConnection modelABC connAC) sceneABC)).
Proof.
  assert (Hne : mkConnectionId nodeB 0 nodeC 0 ≠ connAC) by discriminate.
  destruct X11_draft_outside_registry as (Hframe & Hrestore & Hlost).
  split; [|split].
  - split; [exact Hne|].
    destruct (Hframe modelABC connAC sceneABC)
      as (_ & _ & _ & _ & _ & _ & Hkeep & _).
    rewrite (Hkeep _ Hne). vm_compute; reflexivity.
  - split; [vm_compute; reflexivity|].
    apply Hrestore. vm_compute; reflexivity.
  - split; [vm_compute; reflexivity|].
    apply (Hlost modelABC connAC _
      {| cgo_obj := 4; cgo_connectionId := connAC;
         cgo_in := mkQPointF 100 20; cgo_color := None;
         cgo_doubleClicked := false; cgo_positionChanged := [] |}).
    vm_compute; reflexivity.
Defined.

(** ** Orientation *)

Lemma setOrientation_same g s :
  setOrientation g (_orientation s) s = (tt, s, []).
Proof.
  unfold setOrientation. run_M.
  by destruct (decide (_orientation s ≠ _orientation s)).
Qed.

Lemma setOrientation_other g v s :
  v ≠ _orientation s →
  setOrientation g v s =
    onModelReset g (set_nodeGeometry (geometryOf v) (set_orientation v s)).
Proof.
  intros Hne. unfold setOrientation. run_M.
  destruct (decide (_orientation s ≠ v)) as [_|Heq]; [|by destruct Heq].
  destruct v; simpl; by destruct (onModelReset g _) as [[[] s1] e1].
Qed.

(** X12: Setting the same orientation a second time does nothing: the scene is
    the one the first call left, and nothing is constructed or emitted. *)
Theorem X12_setOrientation_twice :
  ∀ g g' v s,
    setOrientation g' v (exec (setOrientation g v) s) =
      (tt, exec (setOrientation g v) s, []).
Proof.
  intros g g' v s.
  assert (Hv : _orientation (exec (setOrientation g v) s) = v).
  { destruct (decide (v = _orientation s)) as [->|Hne].
    - unfold exec. by rewrite setOrientation_same.
    - unfold exec. rewrite (setOrientation_other g v s Hne).
      destruct (onModelReset_state g
        (set_nodeGeometry (geometryOf v) (set_orientation v s)))
        as (_ & _ & _ & _ & Ho & _).
      unfold exec in Ho. by rewrite Ho. }
  rewrite <- Hv at 1. apply setOrientation_same.
Qed.

(** ** Runs of events *)

Lemma positionChanged_frame c s :
  ∃ items,
    exec (positionChanged c) s = set_sceneTextItems (fun _ => items) s ∧
    ∀ t, is_Some (items !! t) ↔ is_Some (sceneTextItems s !! t).
Proof.
  exists (sceneTextItems (exec (positionChanged c) s)). split.
  - unfold positionChanged.
    apply (for_each_preserves
      (fun s' => s' = set_sceneTextItems (fun _ => sceneTextItems s') s)).
    + intros t s' _ Hs'. unfold positionChangedSlot. step_M.
      destruct (sceneTextItems s' !! t); step_M; rewrite Hs' at 1; by destruct s.
    + by destruct s.
  - intros t. unfold positionChanged.
    rewrite positionChanged_slots_lookup.
    destruct (decide (t ∈ cgo_positionChanged c)); [|done].
    by rewrite fmap_is_Some.
Qed.

Lemma connectionMoved_frame connectionId inPoint s :
  match _connectionGraphicsObjects s !! connectionId with
  | Some c =>
      ∃ items,
        exec (connectionMoved connectionId inPoint) s =
          set_sceneTextItems (fun _ => items)
            (set_connectionGraphicsObjects
               <[connectionId := setEndPointIn inPoint c]> s) ∧
        ∀ t, is_Some (items !! t) ↔ is_Some (sceneTextItems s !! t)
  | None => exec (connectionMoved connectionId inPoint) s = s
  end.
Proof.
  unfold connectionMoved. rewrite exec_get_bind.
  destruct (_connectionGraphicsObjects s !! connectionId) as [c|]; [|done].
  rewrite exec_bind, exec_modify.
  destruct (positionChanged_frame (setEndPointIn inPoint c)
    (set_connectionGraphicsObjects
       <[connectionId := setEndPointIn inPoint c]> s)) as (items & -> & Hlive).
  by exists items.
Qed.

Lemma doubleClicked_exec f g connectionId s :
  exec (handle f g (doubleClicked connectionId)) s =
    match _connectionGraphicsObjects s !! connectionId with
    | Some c => if cgo_doubleClicked c
                then exec (openDialog connectionId) s else s
    | None => s
    end.
Proof.
  simpl. rewrite exec_get_bind.
  destruct (_connectionGraphicsObjects s !! connectionId) as [c|]; [|done].
  by destruct (cgo_doubleClicked c).
Qed.

Lemma okClicked_exec f g connectionId currentItem s :
  exec (handle f g (okClicked connectionId currentItem)) s =
    match _dialogs s !! connectionId with
    | Some _ => exec (okButtonClicked f connectionId currentItem) s
    | None => s
    end.
Proof.
  simpl. rewrite exec_get_bind.
  by destruct (_dialogs s !! connectionId).
Qed.

(** The traversal stores every object under the id it was made for. *)
Lemma traverse_storedUnderOwnId g s :
  storedUnderOwnId s →
  storedUnderOwnId (exec (traverseGraphAndPopulateGraphicsObjects g) s).
Proof.
  intros Hs. rewrite traverse_exec.
  apply for_each_preserves.
  { intros cid s' _ [Hn Hc]. rewrite createConnection_exec. split; [done|].
    simpl. intros k c.
    destruct (decide (cid = k)) as [<-|Hne].
    - rewrite lookup_insert_eq. by intros [= <-].
    - rewrite lookup_insert_ne by done. apply Hc. }
  apply for_each_preserves; [|done].
  intros nodeId s' _ [Hn Hc]. rewrite createNode_exec. split; [|done].
  simpl. intros k n.
  destruct (decide (nodeId = k)) as [<-|Hne].
  - rewrite lookup_insert_eq. by intros [= <-].
  - rewrite lookup_insert_ne by done. apply Hn.
Qed.

Lemma onModelReset_storedUnderOwnId g s :
  storedUnderOwnId (exec (onModelReset g) s).
Proof.
  unfold exec. rewrite onModelReset_run.
  apply traverse_storedUnderOwnId. by split.
Qed.

Lemma handle_storedUnderOwnId f g ev s :
  storedUnderOwnId s → storedUnderOwnId (exec (handle f g ev) s).
Proof.
  intros [Hn Hc].
  assert (Hins : ∀ id c, cgo_connectionId c = id →
    ∀ k c', <[id := c]> (_connectionGraphicsObjects s) !! k = Some c' →
            cgo_connectionId c' = k).
  { intros id c Hid k c'. destruct (decide (id = k)) as [<-|Hne].
    - rewrite lookup_insert_eq. by intros [= <-].
    - rewrite lookup_insert_ne by done. apply Hc. }
  destruct ev as [c|c|n|n|n|n|n| |c|c sel|c| |v|l|c p].
  - cbn [handle]. rewrite onConnectionCreated_exec. split; [done|]. by apply Hins.
  - cbn [handle]. rewrite onConnectionDeleted_exec. split; [done|]. simpl.
    intros k c' [_ Hk]%lookup_delete_Some. by apply Hc.
  - cbn [handle]. rewrite onNodeCreated_exec. split; [|done]. simpl.
    intros k n'. destruct (decide (n = k)) as [<-|Hne].
    + rewrite lookup_insert_eq. by intros [= <-].
    + rewrite lookup_insert_ne by done. apply Hn.
  - cbn [handle]. rewrite onNodeDeleted_exec. split; [|done]. simpl.
    intros k n' [_ Hk]%lookup_delete_Some. by apply Hn.
  - cbn [handle]. rewrite onNodePositionUpdated_exec.
    by destruct (_nodeGraphicsObjects s !! n).
  - cbn [handle]. by rewrite onNodeUpdated_exec.
  - cbn [handle]. by rewrite onNodeClicked_exec.
  - apply onModelReset_storedUnderOwnId.
  - rewrite doubleClicked_exec.
    destruct (_connectionGraphicsObjects s !! c) as [c0|]; [|done].
    destruct (cgo_doubleClicked c0); [|done].
    rewrite openDialog_exec.
    by destruct (_dialogs s !! c) as [[d name]|].
  - rewrite okClicked_exec.
    destruct (_dialogs s !! c); [|done].
    destruct sel as [selected|]; [|by rewrite okButtonClicked_exec_none].
    destruct (_connectionGraphicsObjects s !! c) as [c0|] eqn:Hc0.
    + rewrite (okButtonClicked_exec_proxy _ _ _ _ _ Hc0). split; [done|].
      simpl. apply Hins. simpl. by apply Hc.
    + by rewrite (okButtonClicked_exec_no_proxy _ _ _ _ Hc0).
  - cbn [handle]. rewrite exec_bind, makeDraftConnection_exec. done.
  - done.
  - cbn [handle]. destruct (decide (v = _orientation s)) as [->|Hne].
    + unfold exec. by rewrite setOrientation_same.
    + unfold exec. rewrite (setOrientation_other g v s Hne).
      apply onModelReset_storedUnderOwnId.
  - cbn [handle]. unfold exec. by rewrite getRecordTemplates_run.
  - cbn [handle]. pose proof (connectionMoved_frame c p s) as Hmv.
    destruct (_connectionGraphicsObjects s !! c) as [c0|] eqn:Hc0.
    + destruct Hmv as (items & -> & _). split; [done|]. simpl.
      apply Hins. simpl. by apply Hc.
    + by rewrite Hmv.
Qed.

Lemma handle_geometry f g ev s :
  _nodeGeometry s = geometryOf (_orientation s) →
  _nodeGeometry (exec (handle f g ev) s) =
    geometryOf (_orientation (exec (handle f g ev) s)).
Proof.
  intros Hs.
  destruct ev as [c|c|n|n|n|n|n| |c|c sel|c| |v|l|c p].
  - cbn [handle]. by rewrite onConnectionCreated_exec.
  - cbn [handle]. by rewrite onConnectionDeleted_exec.
  - cbn [handle]. by rewrite onNodeCreated_exec.
  - cbn [handle]. by rewrite onNodeDeleted_exec.
  - cbn [handle]. rewrite onNodePositionUpdated_exec.
    by destruct (_nodeGraphicsObjects s !! n).
  - cbn [handle]. by rewrite onNodeUpdated_exec.
  - cbn [handle]. by rewrite onNodeClicked_exec.
  - cbn [handle]. destruct (onModelReset_state g s)
      as (_ & _ & _ & _ & -> & -> & _). done.
  - rewrite doubleClicked_exec.
    destruct (_connectionGraphicsObjects s !! c) as [c0|]; [|done].
    destruct (cgo_doubleClicked c0); [|done].
    rewrite openDialog_exec.
    by destruct (_dialogs s !! c) as [[d name]|].
  - rewrite okClicked_exec.
    destruct (_dialogs s !! c); [|done].
    destruct sel as [selected|]; [|by rewrite okButtonClicked_exec_none].
    destruct (_connectionGraphicsObjects s !! c) as [c0|] eqn:Hc0.
    + by rewrite (okButtonClicked_exec_proxy _ _ _ _ _ Hc0).
    + by rewrite (okButtonClicked_exec_no_proxy _ _ _ _ Hc0).
  - cbn [handle]. by rewrite exec_bind, makeDraftConnection_exec.
  - done.
  - cbn [handle]. destruct (decide (v = _orientation s)) as [->|Hne].
    + unfold exec. by rewrite setOrientation_same.
    + unfold exec. rewrite (setOrientation_other g v s Hne).
      destruct (onModelReset_state g
        (set_nodeGeometry (geometryOf v) (set_orientation v s)))
        as (_ & _ & _ & _ & Ho & Hg & _).
      unfold exec in Ho, Hg. by rewrite Ho, Hg.
  - cbn [handle]. unfold exec. by rewrite getRecordTemplates_run.
  - cbn [handle]. pose proof (connectionMoved_frame c p s) as Hmv.
    destruct (_connectionGraphicsObjects s !! c) as [c0|].
    + by destruct Hmv as (items & -> & _).
    + by rewrite Hmv.
Qed.

Lemma constructor_state g :
  let s := BasicGraphicsScene g in
  dom (_nodeGraphicsObjects s) = list_to_set (allNodeIds g) ∧
  dom (_connectionGraphicsObjects s) = list_to_set (outConnections g) ∧
  _nodeGeometry s = DefaultHorizontalNodeGeometry ∧
  _orientation s = Horizontal ∧
  _draftConnection s = None ∧
  _nodeDrag s = false ∧
  _dialogs s = ∅ ∧
  _textItems s = ∅ ∧
  sceneTextItems s = ∅.
Proof.
  unfold BasicGraphicsScene.
  destruct (traverse_state g initialScene) as (Hd1 & Hd2 & Hr & _).
  cbv zeta in *. rewrite Hd1, Hd2.
  unfold besidesRegistry in Hr. simpl in Hr.
  injection Hr as H1 H2 H3 H4 H5 H6 H7 H8.
  repeat split; try done; set_solver.
Qed.

(** X13: In every scene reached from the constructor by any run of events,
    each registered node or connection object is stored under the id it
    was constructed for. *)
Theorem X13_objects_stored_under_own_id :
  ∀ f g0 trace,
    storedUnderOwnId (exec (runEvents f trace) (BasicGraphicsScene g0)).
Proof.
  intros f g0 trace. unfold runEvents.
  apply for_each_preserves.
  - intros [g ev] s _. apply handle_storedUnderOwnId.
  - unfold BasicGraphicsScene. apply traverse_storedUnderOwnId. by split.
Qed.

(** X14: In every scene reached from the constructor by any run of events the
    installed node geometry is the one of the current orientation, so
    [onNodeUpdated] of a registered node asks that geometry to recompute
    the node's size. *)
Theorem X14_geometry_matches_orientation :
  ∀ f g0 trace,
    let s := exec (runEvents f trace) (BasicGraphicsScene g0) in
    _nodeGeometry s = geometryOf (_orientation s) ∧
    ∀ id n, _nodeGraphicsObjects s !! id = Some n →
      RecomputeSize (geometryOf (_orientation s)) id
        ∈ effects (onNodeUpdated id) s.
Proof.
  intros f g0 trace. cbv zeta.
  assert (Hg : _nodeGeometry (exec (runEvents f trace) (BasicGraphicsScene g0))
    = geometryOf (_orientation
        (exec (runEvents f trace) (BasicGraphicsScene g0)))).
  { unfold runEvents.
    apply (for_each_preserves
      (fun s => _nodeGeometry s = geometryOf (_orientation s))).
    - intros [g ev] s _. apply handle_geometry.
    - destruct (constructor_state g0) as (_ & _ & Hgeo & Hori & _).
      cbv zeta in *. by rewrite Hgeo, Hori. }
  split; [exact Hg|].
  intros id n Hn. rewrite onNodeUpdated_effects, Hn, Hg.
  right. by left.
Qed.

Lemma X14_geometry_matches_orientation_witness :
  _nodeGraphicsObjects
    (exec (runEvents (fun _ => 0) [(modelABC, orientationSet Vertical)])
          (BasicGraphicsScene modelABC)) !! nodeB
    = Some {| ngo_obj := 5; ngo_nodeId := nodeB |} ∧
  RecomputeSize DefaultVerticalNodeGeometry nodeB
    ∈ effects (onNodeUpdated nodeB)
        (exec (runEvents (fun _ => 0) [(modelABC, orientationSet Vertical)])
              (BasicGraphicsScene modelABC)).
Proof.
  assert (Hn : _nodeGraphicsObjects
    (exec (runEvents (fun _ => 0) [(modelABC, orientationSet Vertical)])
          (BasicGraphicsScene modelABC)) !! nodeB
    = Some {| ngo_obj := 5; ngo_nodeId := nodeB |})
    by (vm_compute; reflexivity).
  split; [exact Hn|].
  destruct (X14_geometry_matches_orientation (fun _ => 0) modelABC
    [(modelABC, orientationSet Vertical)]) as [_ H].
  apply (H nodeB _) in Hn.
  replace DefaultVerticalNodeGeometry with
    (geometryOf (_orientation
       (exec (runEvents (fun _ => 0) [(modelABC, orientationSet Vertical)])
             (BasicGraphicsScene modelABC))))
    by (vm_compute; reflexivity).
  exact Hn.
Defined.






Lemma handle_tracks f g ev s :
  resetFree ev = true →
  dom (_nodeGraphicsObjects (exec (handle f g ev) s)) =
    trackNodes (dom (_nodeGraphicsObjects s)) ev ∧
  dom (_connectionGraphicsObjects (exec (handle f g ev) s)) =
    trackConnections (dom (_connectionGraphicsObjects s)) ev.
Proof.
  intros Hfree.
  destruct ev as [c|c|n|n|n|n|n| |c|c sel|c| |v|l|c p]; try discriminate.
  - cbn [handle]. rewrite onConnectionCreated_exec. simpl.
    by rewrite dom_insert_L.
  - cbn [handle]. rewrite onConnectionDeleted_exec. simpl.
    by rewrite dom_delete_L.
  - cbn [handle]. rewrite onNodeCreated_exec. simpl.
    by rewrite dom_insert_L.
  - cbn [handle]. rewrite onNodeDeleted_exec. simpl.
    by rewrite dom_delete_L.
  - cbn [handle]. rewrite onNodePositionUpdated_exec.
    by destruct (_nodeGraphicsObjects s !! n).
  - cbn [handle]. by rewrite onNodeUpdated_exec.
  - cbn [handle]. by rewrite onNodeClicked_exec.
  - rewrite doubleClicked_exec.
    destruct (_connectionGraphicsObjects s !! c) as [c0|]; [|done].
    destruct (cgo_doubleClicked c0); [|done].
    rewrite openDialog_exec.
    by destruct (_dialogs s !! c) as [[d name]|].
  - rewrite okClicked_exec.
    destruct (_dialogs s !! c); [|done].
    destruct sel as [selected|]; [|by rewrite okButtonClicked_exec_none].
    destruct (_connectionGraphicsObjects s !! c) as [c0|] eqn:Hc0.
    + rewrite (okButtonClicked_exec_proxy _ _ _ _ _ Hc0). simpl.
      split; [done|]. rewrite dom_insert_L.
      apply elem_of_dom_2 in Hc0. set_solver.
    + by rewrite (okButtonClicked_exec_no_proxy _ _ _ _ Hc0).
  - cbn [handle]. by rewrite exec_bind, makeDraftConnection_exec.
  - done.
  - cbn [handle]. unfold exec. by rewrite getRecordTemplates_run.
  - cbn [handle]. pose proof (connectionMoved_frame c p s) as Hmv.
    destruct (_connectionGraphicsObjects s !! c) as [c0|] eqn:Hc0;
      [|by rewrite Hmv].
    destruct Hmv as (items & -> & _). simpl. split; [done|].
    rewrite dom_insert_L. apply elem_of_dom_2 in Hc0. set_solver.
Qed.

(** X16: Without a reset the registries follow the notifications: starting
    from the ids the constructor found in the model, the key set of each
    registry after a run of events is the id set obtained by adding the id
    of every creation notification and removing the id of every deletion
    notification, in order; no other event changes a key set. *)
Theorem X16_registry_keys_follow_notifications :
  ∀ f g0 trace,
    Forall (fun ge => resetFree ge.2 = true) trace →
    let s := exec (runEvents f trace) (BasicGraphicsScene g0) in
    dom (_nodeGraphicsObjects s) =
      foldl trackNodes (list_to_set (allNodeIds g0)) trace.*2 ∧
    dom (_connectionGraphicsObjects s) =
      foldl trackConnections (list_to_set (outConnections g0)) trace.*2.
Proof.
  intros f g0 trace Hfree. cbv zeta.
  destruct (constructor_state g0) as (Hn & Hc & _). cbv zeta in *.
  rewrite <- Hn, <- Hc. clear Hn Hc.
  generalize (BasicGraphicsScene g0). unfold runEvents.
  induction Hfree as [|[g ev] trace Hev Hfree IH]; intros s; [done|].
  simpl for_each. rewrite exec_bind. simpl.
  destruct (handle_tracks f g ev s Hev) as [<- <-]. apply IH.
Qed.

Lemma X16_registry_keys_follow_notifications_witness :
  Forall (fun ge : AbstractGraphModel * SceneEvent => resetFree ge.2 = true)
    [(modelABC, nodeDeleted nodeB); (modelABC, nodeCreated 7)] ∧
  dom (_nodeGraphicsObjects
         (exec (runEvents (fun _ => 0)
                  [(modelABC, nodeDeleted nodeB); (modelABC, nodeCreated 7)])
               (BasicGraphicsScene modelABC)))
    = {[7]} ∪ (list_to_set [nodeA; nodeB; nodeC] ∖ {[nodeB]}).
Proof.
  assert (H : Forall
    (fun ge : AbstractGraphModel * SceneEvent => resetFree ge.2 = true)
    [(modelABC, nodeDeleted nodeB); (modelABC, nodeCreated 7)])
    by (repeat constructor).
  split; [exact H|].
  exact (proj1 (X16_registry_keys_follow_notifications (fun _ => 0) modelABC
                  _ H)).
Defined.

(** The traversal leaves bare proxies behind. *)
Lemma traverse_bare g s :
  (∀ k c, _connectionGraphicsObjects s !! k = Some c → bareProxy c) →
  ∀ k c,
    _connectionGraphicsObjects
      (exec (traverseGraphAndPopulateGraphicsObjects g) s) !! k = Some c →
    bareProxy c.
Proof.
  intros Hs. rewrite traverse_exec.
  apply (for_each_preserves
    (fun s' => ∀ k c, _connectionGraphicsObjects s' !! k = Some c →
                      bareProxy c)).
  { intros cid s' _ Hs'. rewrite createConnection_exec. simpl. intros k c.
    destruct (decide (cid = k)) as [<-|Hne].
    - rewrite lookup_insert_eq. by intros [= <-].
    - rewrite lookup_insert_ne by done. apply Hs'. }
  destruct (firstPass_state (allNodeIds g) s) as (_ & Hc & _).
  cbv zeta in Hc. by rewrite Hc.
Qed.

Lemma doubleClicked_bare f g c s :
  (∀ k p, _connectionGraphicsObjects s !! k = Some p → bareProxy p) →
  handle f g (doubleClicked c) s = (tt, s, []).
Proof.
  intros Hbare. simpl. run_M.
  destruct (_connectionGraphicsObjects s !! c) as [p|] eqn:Hp; [|done].
  destruct (Hbare c p Hp) as (-> & _). done.
Qed.

(** X17: Connection proxies built by the traversal, at construction and on
    every reset, have no double click connected, no colour and no label
    slot: a double click on any connection then opens no dialog and
    changes nothing, while [getConnections] still reports the names chosen
    before the reset.  A proxy made by [onConnectionCreated] does open its
    dialog on a double click. *)
Theorem X17_traversal_proxies_are_bare :
  (∀ f g g' s c,
     let s' := exec (onModelReset g) s in
     (∀ k p, _connectionGraphicsObjects s' !! k = Some p → bareProxy p) ∧
     handle f g' (doubleClicked c) s' = (tt, s', []) ∧
     getConnections s' = getConnections s) ∧
  (∀ f g g' c,
     (∀ k p, _connectionGraphicsObjects (BasicGraphicsScene g) !! k = Some p →
             bareProxy p) ∧
     handle f g' (doubleClicked c) (BasicGraphicsScene g) =
       (tt, BasicGraphicsScene g, [])) ∧
  (∀ f g g' s c,
     is_Some (_dialogs
       (exec (handle f g' (doubleClicked c))
             (exec (onConnectionCreated g c) s)) !! c)).
Proof.
  split; [|split].
  - intros f g g' s c. cbv zeta.
    assert (Hbare : ∀ k p,
      _connectionGraphicsObjects (exec (onModelReset g) s) !! k = Some p →
      bareProxy p).
    { unfold exec. rewrite onModelReset_run. apply traverse_bare.
      intros k p. simpl. by rewrite lookup_empty. }
    split; [exact Hbare|]. split; [by apply doubleClicked_bare|].
    destruct (onModelReset_state g s) as (_ & _ & _ & _ & _ & _ & Hd & _).
    unfold getConnections. by rewrite Hd.
  - intros f g g' c.
    assert (Hbare : ∀ k p,
      _connectionGraphicsObjects (BasicGraphicsScene g) !! k = Some p →
      bareProxy p).
    { apply traverse_bare. intros k p. simpl. by rewrite lookup_empty. }
    split; [exact Hbare|]. by apply doubleClicked_bare.
  - intros f g g' s c. rewrite doubleClicked_exec, onConnectionCreated_exec.
    simpl. rewrite lookup_insert_eq. simpl. rewrite openDialog_exec. simpl.
    destruct (_dialogs s !! c) as [[d name]|]; simpl;
      rewrite lookup_insert_eq; by eexists.
Qed.

(** On the scene built from the example model the proxy of A->C is bare,
    and after [onConnectionCreated] a double click opens its dialog. *)
Lemma X17_traversal_proxies_are_bare_witness :
  cgo_obj <$> _connectionGraphicsObjects (BasicGraphicsScene modelABC) !! connAC
    = Some 3 ∧
  bareProxy
    {| cgo_obj := 3; cgo_connectionId := connAC;
       cgo_in := mkQPointF 100 20; cgo_color := None;
       cgo_doubleClicked := false; cgo_positionChanged := [] |} ∧
  is_Some (_dialogs
    (exec (handle (fun _ => 0) modelABC (doubleClicked connAC))
          (exec (onConnectionCreated modelABC connAC) sceneABC)) !! connAC).
Proof.
  destruct X17_traversal_proxies_are_bare as (_ & Hctor & Hwired).
  split; [vm_compute; reflexivity|]. split.
  - destruct (Hctor (fun _ => 0) modelABC modelABC connAC) as [Hbare _].
    apply (Hbare connAC). vm_compute; reflexivity.
  - apply Hwired.
Defined.

(** ** Labels and the proxy they are wired to *)







